(* ===== verification/_CoqProject ===== *)
-Q . S2P
Prelude.v
PyFloat.v
Grid.v
Random.v
Body.v
Food.v
Render.v
Game.v
Scheduler.v
Typing.v
Abstract.v
Score.v
