(* ===== verification/Prelude.v ===== *)
(** * A verification development of Akuli/snake ([src/snake.py])

    ** The program

    [src/snake.py] is a Tkinter snake game on a toroidal grid.  Its one
    class [SnakeGame] keeps the game in attributes of a widget object:
    the deque [snake_body] (tail first), [previous_direction] and
    [next_direction] as [(dx, dy)] tuples, [game_over] and [food].  Three
    handlers change them: [__init__] builds five cells at mid-height,
    draws the first food with [make_food] and calls [move(True)];
    [move] computes the new head modulo the grid, ends the game when the
    head hits the body, otherwise appends it and either draws a new food
    ([make_food], a rejection-sampling [while] loop) or pops the tail,
    redraws the canvas with [refresh] and, on the timer path, arms the
    next call with [canvas.after]; [on_key] ignores a key opposite to the
    last move and otherwise sets [next_direction] and moves at once.
    [main] builds a 15x10 game, binds the arrow keys and runs the Tk
    loop, which delivers key presses and timer callbacks one at a time.

    ** Files (in dependency order)

    - [Prelude] (this file): Python's outcomes ([Returns], [Raises] of
      [IndexError], [ValueError], [ZeroDivisionError], [OverflowError],
      and [Diverges] for a loop that never exits) with a bind notation
      in [snake_scope]; Python's
      [%], [seq[-1]] and [in] as [py_mod], [py_last], [py_in]; the hint
      databases [snake] and [snake_rw]; the tactics [inv_outcome] and
      [eval_decide]; list lemmas.
    - [PyFloat] (Module [PyFloat]): the binary64 arithmetic of line 98
      over the Stdlib's [SpecFloat] ([prec = 53], [emax = 1024]):
      [py_random_float], [py_float_of_int], [py_mul_int],
      [py_truediv_int] ([ZeroDivisionError]), [py_int_of_float]
      (truncation, [OverflowError], [ValueError]) and the delay
      [sleeptime]; a characterisation of [binary_round_aux] on
      non-negative values (faithful rounding at every binary scale the
      precision resolves, and the half-unit error bound of rounding to
      nearest) and the delay theorems.
    - [Grid] (Module [Grid]): cells and directions as [Z * Z],
      [binding2direction], [opposite] (line 65), [wrap_step] (lines
      76-77: floor modulo, [ZeroDivisionError] on width 0), [next_cell],
      and [grid_cells], the order of the canvas cells (lines 38-41).
    - [Random] (Module [Random]): the interface of Python's [random]
      module as a class [RandomSource] ([randrange], and [random53],
      the integer [k] with [random() = k / 2^53]) with its range laws
      [RandomLaws]; [Scripted] replays a list of integers.
    - [Body] (Module [Body]): the deque: [initial_body] (line 26),
      [append], [popleft]; [linked], the body as a path on the torus.
    - [Food] (Module [Food], Section [MakeFood] over the grid and the
      body): [draw_cell], [make_food_loop] with fuel, [make_food]
      (lines 49-56), and the big-step semantics [loop_exec] of the loop.
    - [Render] (Module [Render]): the widgets as the [screen] record
      (canvas size, the rectangle of each cell in [item_ids], the fill of
      each rectangle, the status text, the texts on the canvas);
      [initial_screen] with the nested loops [create_rectangles] and
      [create_column] (lines 32-44), [refresh_screen] (101-110),
      [game_over_item] and [draw_game_over] (84-87).
    - [Game] (Module [Game], Section [Game] over the generator and the
      fuel): the record [game] of the attributes (with [scale]) plus the
      generator state [rng], the [screen] and the list [pending] of
      armed [canvas.after] delays; [move] (lines 70-99) built from
      [collide] (79-88), [eat_or_pop] (90-94) and [arm_timer] (96-99);
      [on_key] (58-68); [init] (19-47); the invariants [body_ok],
      [moved_ok], [layout_ok] and [screen_ok].
    - [Scheduler] (Module [Scheduler]): the Tk loop as the relation
      [step] (a key runs [on_key]; any pending timer leaves the queue and
      runs [move(True)]), [reachable] states of a game built by [init]
      at any scale, the loop invariant [loop_inv], and [screen_ok] along
      runs.
    - [Typing] (Module [Typing]): [well_typed], the types and ranges of
      the attributes the code relies on, for every reachable state.
    - [Abstract] (Module [Abstract]): the engine of the specification
      (section 4.4) as an abstract machine [astep] over body, food,
      direction and game-over flag, the abstraction [abs] of a [game],
      and the refinement theorems.
    - [Score] (Module [Score]): runs of the loop counting the steps that
      ate ([run], [eaten]); the score along a run and the body of a
      finished game.

    Components talk through interfaces: [Food] and [Game] are proved
    against the class [Random.RandomSource] and its laws
    [Random.RandomLaws], never against a particular generator; [Game]
    sees the widgets only through [Render.refresh_screen] and
    [Render.draw_game_over] and the delay only through
    [PyFloat.sleeptime]; [Scheduler] and [Score]
    drive [Game] only through [on_key] and [move].

    ** What is proved

    - [move] on every branch ([Game.move_spec]), its invariant
      ([move_preserves], [on_key_preserves]), that it never raises on a
      well-formed state ([move_no_raise]) and returns whenever the
      generator draws a free cell within the fuel ([move_returns]);
      the 15x10 start of [main] ([init_15_10]) and [ValueError] from
      [__init__] on a grid without cells ([init_empty_grid]); the timer
      path of [move] either ends the game or arms exactly one delay
      below [1000 / len] ([move_timer_delay]).
    - For every reachable state: the loop invariant
      ([Scheduler.reachable_loop_inv]: a duplicate-free body on the
      grid, food on the grid and outside it, equal directions, exactly
      one timer chain while running and at most one pending timer
      after); a finished game never changes ([game_over_final]); the
      widgets show the state ([reachable_screen_ok]); the canvas of a
      running game has as many black rectangles as the score shown,
      one red and the rest white ([reachable_render_counts]); a finished body is a
      duplicate-free body plus the head that hit it
      ([Score.game_over_body_shape]); every attribute keeps its type
      and range, every pending delay in [[0, 1000)]
      ([Typing.reachable_well_typed]).
    - The score grows by exactly the foods eaten, plus one for the
      colliding head ([Score.score_counts_food]).
    - No key press moves the head onto the neck on a grid at least 3x3
      ([Game.on_key_no_neck_bite]); on a 2-wide grid it can
      ([width2_straight_bites_neck]).
    - [make_food]: it returns the first free draw
      ([Food.make_food_first_free]), a grid cell outside the body
      ([make_food_safe]); it returns as soon as a draw is free
      ([make_food_terminates]) and never on a full board
      ([make_food_full_board]).
    - The delay with Python's doubles: it is the exact floor of
      [k * 1000 / (2^53 * len)] or one more
      ([PyFloat.sleeptime_floor_or_next], and
      [sleeptime_rounds_up] where it is one more), lies in
      [[0, 1000 / len)] as scenario 4 of the specification requires
      ([sleeptime_range]),
      never grows with the length ([sleeptime_antitone]) and raises
      [ZeroDivisionError] on an empty body ([sleeptime_empty_body]).
    - Rendering: the rectangles tile the canvas
      ([Render.rectangles_tile]); the modulo arithmetic stays
      on the grid ([Grid.wrap_step_in_grid]) and a step followed by a
      step in the opposite direction comes back
      ([Grid.next_cell_opposite]).
    - Refinement: every step of the event loop is a step of the
      specification's abstract engine or a stutter
      ([Abstract.step_refines]), and whole runs from [__init__] are
      runs of it ([Abstract.reachable_refines]).
    - Counterexamples behind the findings: [width2_straight_bites_neck],
      [initial_body_outside_narrow_grid], [tail_chase_ends_game],
      [sleeptime_rounds_up].

    ** Bounds, fuel and what is not modelled

    [make_food] is the only loop of the program.  Its model carries a
    fuel, the number of redraws allowed; running out answers
    [Diverges].  No fixed fuel is assumed: the theorems hold for every
    fuel, [Food.make_food_loop_refines] shows that every terminating run of
    the [while] loop is computed with enough fuel, and
    [make_food_terminates] bounds the fuel by the index of the first
    free draw.  The witnesses use a fuel of 10 with scripted draws.
    Integers are Python integers (unbounded), hence [Z].  Floats are
    IEEE-754 binary64 ([SpecFloat] at precision 53); the delay theorems
    assume a body shorter than [2^53] cells, below which CPython converts
    the length to a double exactly ([move_no_raise] assumes [2^52] so
    that the body after one more cell still converts exactly), and the
    antitonicity assumes at most [2^42] cells, the scale at which the
    faithful-rounding bound separates two lengths.  The strict bound
    [delay * len < 1000] combines rounding to nearest at the division
    with the product [random() * 1000] staying at most [1000 - 2^-43],
    the double below [1000] (computed for the largest draw [2^53 - 1],
    faithful rounding for the others).  [Typing] assumes fewer than
    [2^52] grid cells, so that every body converts to a double exactly.

    ** Not modelled

    - The Mersenne Twister behind [random]: a library the program only
      calls.  It is the interface [Random.RandomSource] with the range
      laws [Random.RandomLaws]; the fairness [move_returns] needs is a
      hypothesis about the draws, since no law of the interface can
      imply it.
    - Widget creation and packing ([tk.Frame], [pack]), Tk's item
      numbers, fonts and pixels, and [root.mainloop] itself: toolkit
      I/O.  Their effect on the game is modelled: the [screen] record
      holds what the game writes into the widgets, and the loop is the
      relation [Scheduler.step].
    - The time at which Tk fires a timer: any pending timer may fire
      next, which covers every schedule.
    - Lines 1-7 ([import]s, the [#!] line) and 122-124 (the [__main__]
      guard calling [main]) have no behaviour to model. *)

From Stdlib Require Export ZArith Lia.
From stdpp Require Export base decidable sets relations list_monad list.

Declare Scope snake_scope.
Delimit Scope snake_scope with snake.
Open Scope snake_scope.

Create HintDb snake discriminated.
Create Rewrite HintDb snake_rw.

(** ** Python outcomes

    A Python call either returns a value, raises an exception, or does
    not return at all (a [while] loop that never exits).  [Diverges] is
    also what a fuelled model of such a loop answers when its fuel runs
    out. *)

Inductive exn :=
  | IndexError
  | ValueError
  | ZeroDivisionError
  | OverflowError.

Inductive outcome (A : Type) :=
  | Returns (a : A)
  | Raises (e : exn)
  | Diverges.
Arguments Returns {A} a.
Arguments Raises {A} e.
Arguments Diverges {A}.

#[export] Instance exn_eq_dec : EqDecision exn.
Proof. solve_decision. Defined.

Definition obind {A B} (m : outcome A) (k : A -> outcome B) : outcome B :=
  match m with
  | Returns a => k a
  | Raises e => Raises e
  | Diverges => Diverges
  end.

Notation "x <- m ;; k" := (obind m (fun x => k))
  (at level 100, m at next level, right associativity) : snake_scope.

(** Python's [a % b] on integers: floor modulo, which is [Z.modulo],
    and [ZeroDivisionError] for a zero divisor. *)
Definition py_mod (a b : Z) : outcome Z :=
  if decide (b = 0%Z) then Raises ZeroDivisionError else Returns (a mod b)%Z.

(** Python's [seq[-1]]: the last element, [IndexError] when empty. *)
Definition py_last {A} (l : list A) : outcome A :=
  match last l with
  | Some x => Returns x
  | None => Raises IndexError
  end.

(** Python's [x in seq] on a list: a linear scan with [==]. *)
Definition py_in `{EqDecision A} (x : A) (l : list A) : bool :=
  bool_decide (x ∈ l).

(** ** Generic lemmas *)

Lemma obind_Returns_inv {A B} (m : outcome A) (k : A -> outcome B) b :
  obind m k = Returns b -> exists a, m = Returns a /\ k a = Returns b.
Proof. destruct m; simpl; try discriminate. eauto. Qed.

Lemma obind_Raises_inv {A B} (m : outcome A) (k : A -> outcome B) e :
  obind m k = Raises e -> m = Raises e \/ exists a, m = Returns a /\ k a = Raises e.
Proof. destruct m; simpl; try discriminate; eauto. intros [= ->]. auto. Qed.

Lemma obind_Returns {A B} (a : A) (k : A -> outcome B) :
  obind (Returns a) k = k a.
Proof. reflexivity. Qed.

Lemma py_mod_ok a b : b <> 0%Z -> py_mod a b = Returns (a mod b)%Z.
Proof. intros Hb. unfold py_mod. by rewrite decide_False. Qed.

Lemma py_last_snoc {A} (l : list A) x : py_last (l ++ [x]) = Returns x.
Proof. unfold py_last. by rewrite last_snoc. Qed.

Lemma py_in_spec `{EqDecision A} (x : A) l : py_in x l = true <-> x ∈ l.
Proof. unfold py_in. apply bool_decide_eq_true. Qed.

Lemma py_in_false `{EqDecision A} (x : A) l : py_in x l = false <-> x ∉ l.
Proof. unfold py_in. apply bool_decide_eq_false. Qed.

Lemma NoDup_snoc {A} (l : list A) x : NoDup l -> x ∉ l -> NoDup (l ++ [x]).
Proof.
  intros Hl Hx. apply NoDup_app. split; [done|]. split; [|apply NoDup_singleton].
  intros y Hy ->%list_elem_of_singleton. done.
Qed.

Lemma elem_of_snoc {A} (l : list A) x y : y ∈ l ++ [x] <-> y ∈ l \/ y = x.
Proof. rewrite elem_of_app, list_elem_of_singleton. tauto. Qed.

Lemma length_snoc {A} (l : list A) x : length (l ++ [x]) = S (length l).
Proof. rewrite length_app. simpl. lia. Qed.

Lemma NoDup_tail {A} (l : list A) : NoDup l -> NoDup (tail l).
Proof. destruct l; simpl; [done|]. by intros [_ ?]%NoDup_cons. Qed.

Lemma Forall_tail {A} (P : A -> Prop) l : Forall P l -> Forall P (tail l).
Proof. destruct l; simpl; [done|]. by intros [_ ?]%Forall_cons. Qed.

Lemma elem_of_tail {A} (l : list A) x : x ∈ tail l -> x ∈ l.
Proof. destruct l; simpl; [done|]. intros. by apply elem_of_cons; right. Qed.

(** The last two cells of [l ++ [x]]. *)
Lemma snoc_eq_pair {A} (l pre : list A) x n y :
  l ++ [x] = pre ++ [n; y] -> y = x /\ l = pre ++ [n].
Proof.
  replace (pre ++ [n; y]) with ((pre ++ [n]) ++ [y]) by by rewrite <-app_assoc.
  intros [? [=]]%app_inj_tail. by subst.
Qed.

#[export] Hint Rewrite @obind_Returns @py_last_snoc @length_snoc : snake_rw.
#[export] Hint Resolve NoDup_snoc NoDup_tail Forall_tail elem_of_tail : snake.

(** Prove a decidable proposition about concrete data by evaluation. *)
Ltac eval_decide := apply (bool_decide_unpack _); vm_compute; reflexivity.

(** Invert every [obind _ _ = Returns _] hypothesis. *)
Ltac inv_outcome :=
  repeat match goal with
  | H : obind _ _ = Returns _ |- _ =>
      let a := fresh "a" in let Ha := fresh "Ha" in
      apply obind_Returns_inv in H; destruct H as (a & Ha & H)
  | H : Returns _ = Returns _ |- _ => injection H as H
  end.
