(* ===== verification/PyFloat.v ===== *)
(** * PyFloat: the binary64 arithmetic of the timer delay

    Line 98 of src/snake.py computes
    [int(random.random() * 1000 / len(self.snake_body))] with Python
    floats: IEEE-754 binary64 numbers, every operation rounded to
    nearest with ties to even.  They are modelled by the Stdlib's
    [spec_float] (module [SpecFloat], the specification the primitive
    floats of the kernel are proved against) at [prec = 53] and
    [emax = 1024], with CPython's conversions and exceptions around it:
    - [py_float_of_int]: an [int] operand of a float operation is
      converted by [PyLong_AsDouble], correctly rounded, raising
      [OverflowError] beyond the largest double;
    - [py_random_float]: [random.random()] returns the double [k / 2^53]
      for the 53-bit integer [k] of the generator;
    - [py_mul_int] and [py_truediv_int]: [float * int] and
      [float / int]; the division raises [ZeroDivisionError] when the
      divisor is zero;
    - [py_int_of_float]: [int(x)] truncates toward zero and raises
      [OverflowError] on an infinity and [ValueError] on a NaN.

    The lemmas characterise SpecFloat's rounding ([binary_round_aux])
    on non-negative inputs below [2^53]: the rounded result lies between
    every integer bound of the exact value, at any binary scale [2^-J]
    that the result's precision resolves (faithful rounding: the result
    is one of the two doubles around the exact value), and it lies at
    most half a unit of that scale above the exact value (rounding to
    nearest, [below_half] carried through SpecFloat's shifts).  The
    first gives the floor-or-next and antitonicity theorems, the second
    the half-open range [[0, 1000 / len)] of the delay. *)

From Corelib Require Import Floats.SpecFloat.
From S2P Require Import Prelude.

Module PyFloat.

Definition prec : Z := 53.
Definition emax : Z := 1024.

(** [PyLong_AsDouble]: the double nearest to [n]. *)
Definition py_float_of_int (n : Z) : outcome spec_float :=
  match binary_normalize prec emax n 0 false with
  | S754_infinity _ => Raises OverflowError
  | f => Returns f
  end.

(** [random.random()] for the integer [k] drawn by the generator. *)
Definition py_random_float (k : Z) : spec_float :=
  binary_normalize prec emax k (-53) false.

(** [x * n] for a float [x] and an int [n]. *)
Definition py_mul_int (x : spec_float) (n : Z) : outcome spec_float :=
  y <- py_float_of_int n ;;
  Returns (SFmul prec emax x y).

(** [x / n] for a float [x] and an int [n] ([float_div] of CPython). *)
Definition py_truediv_int (x : spec_float) (n : Z) : outcome spec_float :=
  y <- py_float_of_int n ;;
  match y with
  | S754_zero _ => Raises ZeroDivisionError
  | _ => Returns (SFdiv prec emax x y)
  end.

(** [int(x)]: truncation toward zero ([PyLong_FromDouble]). *)
Definition py_int_of_float (x : spec_float) : outcome Z :=
  match x with
  | S754_zero _ => Returns 0%Z
  | S754_infinity _ => Raises OverflowError
  | S754_nan => Raises ValueError
  | S754_finite s m e =>
      Returns (if s then - Z.shiftl (Zpos m) e else Z.shiftl (Zpos m) e)%Z
  end.

(** Line 98: [sleeptime = int(random.random() * 1000 /
    len(self.snake_body))], for the 53-bit integer [k] behind
    [random.random()], evaluated left to right. *)
Definition sleeptime (k : Z) (len : nat) : outcome Z :=
  x <- py_mul_int (py_random_float k) 1000 ;;
  y <- py_truediv_int x (Z.of_nat len) ;;
  py_int_of_float y.

(** The value [c * 2^e] of a non-negative result of the rounding. *)
Definition fin (c e : Z) : spec_float :=
  match c with
  | Zpos m => S754_finite false m e
  | _ => S754_zero false
  end.

(** [0] for an exact location, [1] for a value strictly between two
    mantissas. *)
Definition loc_inexact (l : location) : Z :=
  match l with
  | loc_Exact => 0
  | loc_Inexact _ => 1
  end.

(** [true] when the location puts the exact value at or above the
    midpoint of two mantissas: the cases in which [round_nearest_even]
    may round up. *)
Definition loc_upper (l : location) : bool :=
  match l with
  | loc_Inexact Eq | loc_Inexact Gt => true
  | _ => false
  end.

(** The exact value [X / D], in units of the current exponent, is at
    least the mantissa [m], and at least [m + 1/2] when the round bit
    [r] is set. *)
Definition below_half (m : Z) (r : bool) (X D : Z) : Prop :=
  (m * D <= X)%Z /\ (r = true -> ((2 * m + 1) * D <= 2 * X)%Z).

(** ** Integer lemmas *)

(** An equation between products of powers of two, by the exponents. *)
Ltac pow2_eq := rewrite <-?Z.pow_add_r by lia; f_equal; lia.

Lemma digits2_pos_bounds m :
  (2 ^ (Zpos (digits2_pos m) - 1) <= Zpos m < 2 ^ Zpos (digits2_pos m))%Z.
Proof.
  induction m as [m IH|m IH|]; [rewrite (Pos2Z.inj_xI m)|rewrite (Pos2Z.inj_xO m)|simpl; lia];
    cbn [digits2_pos]; rewrite Pos2Z.inj_succ;
    pose proof (Pos2Z.is_pos (digits2_pos m));
    set (d := Zpos (digits2_pos m)) in *;
    replace (Z.succ d - 1)%Z with (Z.succ (d - 1)) by lia;
    rewrite (Z.pow_succ_r 2 d), (Z.pow_succ_r 2 (d - 1)) by lia; lia.
Qed.

Lemma pow2_scale e e' J :
  (e' + J <= 0)%Z -> (e <= e')%Z -> (2 ^ (- e - J) = 2 ^ (- e' - J) * 2 ^ (e' - e))%Z.
Proof. intros. rewrite <-Z.pow_add_r by lia. f_equal. lia. Qed.

Lemma mod_pow2_succ m n :
  (0 <= m)%Z -> (0 <= n)%Z ->
  (m mod 2 ^ (n + 1) = 0 <-> m mod 2 ^ n = 0 /\ (m / 2 ^ n) mod 2 = 0)%Z.
Proof.
  intros Hm Hn. assert (0 < 2 ^ n)%Z by lia.
  rewrite Z.pow_add_r by lia.
  rewrite <-!Z.rem_mod_nonneg by (try apply Z.div_pos; lia).
  rewrite Z.mod_mul_r, Z.quot_div_nonneg by lia.
  assert (0 <= m / 2 ^ n)%Z by (apply Z.div_pos; lia).
  assert (0 <= Z.rem m (2 ^ n))%Z by (apply Z.rem_nonneg; lia).
  assert (0 <= Z.rem (m / 2 ^ n) 2)%Z by (apply Z.rem_nonneg; lia).
  rewrite Z.pow_1_r. split; [intros Hs; nia|intros [Hr1 Hr2]; nia].
Qed.

(** Truncating [m / 2^n] keeps every integer bound of [m / 2^n], the
    upper one counting a remainder [i] known to be positive. *)
Lemma div_pow2_upper m n M i i' :
  (0 <= m)%Z -> (0 <= n)%Z -> (0 <= i <= 1)%Z -> (0 <= i' <= 1)%Z ->
  (i' = 0 <-> i = 0 /\ m mod 2 ^ n = 0)%Z ->
  (m + i <= M * 2 ^ n)%Z -> (m / 2 ^ n + i' <= M)%Z.
Proof.
  intros Hm Hn Hi Hi' Hiff Hle. assert (0 < 2 ^ n)%Z by lia.
  pose proof (Z.div_mod m (2 ^ n) ltac:(lia)) as Hdm.
  pose proof (Z.mod_pos_bound m (2 ^ n) ltac:(lia)).
  destruct (decide (i' = 0%Z)) as [Hz|Hz].
  - destruct (proj1 Hiff Hz) as [-> Hr]. rewrite Hz. nia.
  - assert (i <> 0 \/ m mod 2 ^ n <> 0)%Z by (destruct (decide (i = 0%Z)); [|lia]; tauto).
    nia.
Qed.

Lemma div_pow2_lower m n M :
  (0 <= n)%Z -> (M * 2 ^ n <= m)%Z -> (M <= m / 2 ^ n)%Z.
Proof. intros. apply Z.div_le_lower_bound; lia. Qed.

(** ** SpecFloat's shifts and rounding *)

Lemma iter_pos_iter {A} (f : A -> A) p x : SpecFloat.iter_pos f p x = Nat.iter (Pos.to_nat p) f x.
Proof.
  revert x. induction p as [p IH|p IH|]; intros x; cbn [SpecFloat.iter_pos].
  - rewrite Pos2Nat.inj_xI, Nat.iter_succ_r, !IH, <-Nat.iter_add. f_equal. lia.
  - rewrite Pos2Nat.inj_xO, !IH, <-Nat.iter_add. f_equal. lia.
  - done.
Qed.

Lemma shr_1_spec m r s :
  (0 <= m)%Z ->
  shr_1 (Build_shr_record m r s) = Build_shr_record (m / 2) (Z.odd m) (r || s).
Proof.
  destruct m as [|[p|p|]|p]; intros Hm; try lia; cbn [shr_1]; f_equal;
    try reflexivity.
  - rewrite (Pos2Z.inj_xI p). Z.div_mod_to_equations. lia.
  - rewrite (Pos2Z.inj_xO p). Z.div_mod_to_equations. lia.
Qed.

Lemma shr_iter_spec n m r s :
  (0 <= m)%Z ->
  shr_m (Nat.iter n shr_1 (Build_shr_record m r s)) = (m / 2 ^ Z.of_nat n)%Z /\
  (shr_r (Nat.iter n shr_1 (Build_shr_record m r s)) = false /\
   shr_s (Nat.iter n shr_1 (Build_shr_record m r s)) = false <->
   r = false /\ s = false /\ (m mod 2 ^ Z.of_nat n = 0)%Z).
Proof.
  intros Hm. induction n as [|n IH].
  - simpl. rewrite Z.div_1_r, Z.mod_1_r. tauto.
  - rewrite !Nat.iter_succ. destruct (Nat.iter n shr_1 _) as [m' r' s']. cbn [shr_m shr_r shr_s] in IH.
    destruct IH as [-> IH].
    assert (0 <= m / 2 ^ Z.of_nat n)%Z by (apply Z.div_pos; lia).
    rewrite shr_1_spec by done. cbn [shr_m shr_r shr_s].
    rewrite Nat2Z.inj_succ, <-Z.add_1_r, mod_pow2_succ by lia.
    rewrite Z.pow_add_r, Z.div_div by lia. split; [done|].
    rewrite orb_false_iff, IH, (Zmod_odd (m / 2 ^ Z.of_nat n)).
    destruct (Z.odd _); intuition (try discriminate; lia).
Qed.

Lemma loc_of_shr_record_exact mrs :
  loc_of_shr_record mrs = loc_Exact <-> shr_r mrs = false /\ shr_s mrs = false.
Proof. destruct mrs as [? [] []]; simpl; intuition discriminate. Qed.

Lemma shr_record_of_loc_exact m l :
  shr_r (shr_record_of_loc m l) = false /\ shr_s (shr_record_of_loc m l) = false <->
  l = loc_Exact.
Proof. destruct l as [|[]]; simpl; intuition discriminate. Qed.

Lemma loc_of_shr_record_of_loc m l : loc_of_shr_record (shr_record_of_loc m l) = l.
Proof. by destruct l as [|[]]. Qed.

Lemma loc_inexact_bounds l : (0 <= loc_inexact l <= 1)%Z.
Proof. destruct l; simpl; lia. Qed.

Lemma loc_inexact_exact l : loc_inexact l = 0%Z <-> l = loc_Exact.
Proof. destruct l; simpl; intuition discriminate. Qed.

Lemma shr_iter_loc p m l :
  (0 <= m)%Z ->
  shr_m (SpecFloat.iter_pos shr_1 p (shr_record_of_loc m l)) = (m / 2 ^ Zpos p)%Z /\
  (loc_of_shr_record (SpecFloat.iter_pos shr_1 p (shr_record_of_loc m l)) = loc_Exact <->
   l = loc_Exact /\ (m mod 2 ^ Zpos p = 0)%Z).
Proof.
  intros Hm. rewrite iter_pos_iter, loc_of_shr_record_exact, <-(shr_record_of_loc_exact m l).
  assert (Hm0 : shr_m (shr_record_of_loc m l) = m) by (by destruct l as [|[]]).
  destruct (shr_record_of_loc m l) as [m0 r s]; simpl in Hm0 |- *; subst m0.
  destruct (shr_iter_spec (Pos.to_nat p) m r s Hm) as [H1 H2].
  rewrite positive_nat_Z in H1, H2. split; [done|]. rewrite H2. tauto.
Qed.

(** [shr_fexp] truncates the mantissa to the exponent [fexp] asks for,
    and reports an exact location exactly when nothing was lost. *)
Lemma shr_fexp_spec m e l mrs e' :
  (0 <= m)%Z -> shr_fexp prec emax m e l = (mrs, e') ->
  e' = Z.max e (fexp prec emax (Zdigits2 m + e)) /\
  shr_m mrs = (m / 2 ^ (e' - e))%Z /\
  (loc_of_shr_record mrs = loc_Exact <-> l = loc_Exact /\ (m mod 2 ^ (e' - e) = 0)%Z).
Proof.
  intros Hm. unfold shr_fexp, shr.
  destruct (fexp prec emax (Zdigits2 m + e) - e)%Z as [|p|p] eqn:Hn; intros [= <- <-].
  - rewrite Z.sub_diag, Z.div_1_r, Z.mod_1_r, loc_of_shr_record_of_loc.
    split; [lia|]. split; [by destruct l as [|[]]|tauto].
  - replace (e + Zpos p - e)%Z with (Zpos p) by lia.
    split; [lia|]. by apply shr_iter_loc.
  - rewrite Z.sub_diag, Z.div_1_r, Z.mod_1_r, loc_of_shr_record_of_loc.
    split; [lia|]. split; [by destruct l as [|[]]|tauto].
Qed.

Lemma round_nearest_even_bounds a l :
  (a <= round_nearest_even a l <= a + loc_inexact l)%Z.
Proof. destruct l as [|[]]; simpl; try lia. destruct (Z.even a); lia. Qed.

(** *** Round to nearest

    The round bit of a shift record says whether the dropped part is at
    least one half; [below_half] is kept by every shift and gives the
    nearest-rounding bound [round_nearest_even_half]. *)

Lemma shr_1_half m r X D :
  (0 <= m)%Z -> (0 <= D)%Z -> below_half m r X D -> below_half (m / 2) (Z.odd m) X (2 * D).
Proof.
  intros Hm HD [H1 _]. pose proof (Zmod_odd m) as Hodd.
  pose proof (Z.div_mod m 2 ltac:(lia)). split.
  - destruct (Z.odd m); nia.
  - intros Ho. rewrite Ho in Hodd. nia.
Qed.

Lemma shr_iter_half n m r s X D :
  (0 <= m)%Z -> (0 <= D)%Z -> below_half m r X D ->
  below_half (shr_m (Nat.iter n shr_1 (Build_shr_record m r s)))
             (shr_r (Nat.iter n shr_1 (Build_shr_record m r s))) X (D * 2 ^ Z.of_nat n).
Proof.
  intros Hm HD Hh. induction n as [|n IH]; [by rewrite Z.mul_1_r|].
  rewrite Nat.iter_succ. pose proof (proj1 (shr_iter_spec n m r s Hm)) as Hm'.
  destruct (Nat.iter n shr_1 _) as [m' r' s']. cbn [shr_m shr_r] in IH, Hm'.
  assert (0 <= m')%Z by (rewrite Hm'; apply Z.div_pos; lia).
  rewrite shr_1_spec by done. cbn [shr_m shr_r].
  rewrite Nat2Z.inj_succ, Z.pow_succ_r by lia.
  replace (D * (2 * 2 ^ Z.of_nat n))%Z with (2 * (D * 2 ^ Z.of_nat n))%Z by ring.
  apply (shr_1_half _ r'); [done|lia|done].
Qed.

Lemma loc_upper_of_shr_record mrs : loc_upper (loc_of_shr_record mrs) = shr_r mrs.
Proof. by destruct mrs as [? [] []]. Qed.

Lemma shr_record_of_loc_fields m l :
  shr_m (shr_record_of_loc m l) = m /\ shr_r (shr_record_of_loc m l) = loc_upper l.
Proof. by destruct l as [|[]]. Qed.

Lemma shr_fexp_half m e l X D mrs e' :
  (0 <= m)%Z -> (0 <= D)%Z -> below_half m (loc_upper l) X D ->
  shr_fexp prec emax m e l = (mrs, e') ->
  below_half (shr_m mrs) (loc_upper (loc_of_shr_record mrs)) X (D * 2 ^ (e' - e)).
Proof.
  intros Hm HD Hh. unfold shr_fexp, shr. rewrite loc_upper_of_shr_record.
  destruct (shr_record_of_loc_fields m l) as [Hm0 Hr0].
  destruct (fexp prec emax (Zdigits2 m + e) - e)%Z as [|p|p]; intros [= <- <-];
    [rewrite Z.sub_diag, Z.mul_1_r, Hm0, Hr0; done| |rewrite Z.sub_diag, Z.mul_1_r, Hm0, Hr0; done].
  replace (e + Zpos p - e)%Z with (Z.of_nat (Pos.to_nat p)) by lia.
  rewrite iter_pos_iter. destruct (shr_record_of_loc m l) as [m0 r0 s0].
  cbn [shr_m shr_r] in Hm0, Hr0. subst m0 r0. by apply shr_iter_half.
Qed.

Lemma round_nearest_even_half a l X D :
  (0 <= D)%Z -> below_half a (loc_upper l) X D ->
  (2 * round_nearest_even a l * D <= 2 * X + D)%Z.
Proof.
  intros HD [H1 H2].
  destruct l as [|[]]; simpl in *; try destruct (Z.even a); try specialize (H2 eq_refl); lia.
Qed.

(** The exponent [fexp] picks for a value below [U / 2^J], with
    [U < 2^53], resolves multiples of [2^-J]. *)
Lemma fexp_digits_bound J U m e :
  (0 <= J <= 1000)%Z -> (0 <= U < 2 ^ 53)%Z -> (0 <= m)%Z -> (e + J <= 0)%Z ->
  (m <= U * 2 ^ (- e - J))%Z ->
  (Z.max e (fexp prec emax (Zdigits2 m + e)) + J <= 0)%Z.
Proof.
  intros HJ HU Hm He Hle. unfold fexp, emin, prec, emax.
  destruct m as [|p|p]; simpl Zdigits2; [lia| |lia].
  pose proof (digits2_pos_bounds p) as [Hd _].
  assert (2 ^ (Zpos (digits2_pos p) - 1) < 2 ^ (53 + (- e - J)))%Z.
  { rewrite Z.pow_add_r by lia. assert (0 < 2 ^ (- e - J))%Z by lia. nia. }
  apply Z.pow_lt_mono_r_iff in H; lia.
Qed.

(** Faithful rounding of a non-negative value below [2^53 / 2^J]: the
    mantissa [mx], exponent [ex] and location [lx] describe the exact
    value (between [mx * 2^ex] and [(mx + 1) * 2^ex] when [lx] is
    inexact); every bound [N / 2^J] of the exact value bounds the
    rounded result [c * 2^e] in the same direction. *)
Lemma binary_round_aux_bounds J U mx ex lx :
  (0 <= J <= 1000)%Z -> (0 <= U < 2 ^ 53)%Z -> (0 <= mx)%Z -> (ex + J <= 0)%Z ->
  (mx + loc_inexact lx <= U * 2 ^ (- ex - J))%Z ->
  exists c e, binary_round_aux prec emax false mx ex lx = fin c e /\
    (ex <= e /\ e + J <= 0)%Z /\ (0 <= c)%Z /\
    (forall N, (mx + loc_inexact lx <= N * 2 ^ (- ex - J))%Z -> (c <= N * 2 ^ (- e - J))%Z) /\
    (forall N, (N * 2 ^ (- ex - J) <= mx)%Z -> (N * 2 ^ (- e - J) <= c)%Z) /\
    (forall X D, (0 <= D)%Z -> below_half mx (loc_upper lx) X D ->
       (2 * c * 2 ^ (e - ex) * D <= 2 * X + 2 ^ (- ex - J) * D)%Z).
Proof.
  intros HJ HU Hmx HeJ Hup. pose proof (loc_inexact_bounds lx).
  unfold binary_round_aux.
  destruct (shr_fexp prec emax mx ex lx) as [mrs e1] eqn:E1.
  destruct (shr_fexp_spec _ _ _ _ _ Hmx E1) as (He1 & Ha & Hloc).
  assert (He1J : (e1 + J <= 0)%Z)
    by (rewrite He1; apply (fexp_digits_bound J U); lia).
  set (a := shr_m mrs) in *. set (l1 := loc_of_shr_record mrs) in *.
  assert (Ha0 : (0 <= a)%Z) by (rewrite Ha; apply Z.div_pos; lia).
  assert (Hup1 : forall N, (mx + loc_inexact lx <= N * 2 ^ (- ex - J))%Z ->
                 (a + loc_inexact l1 <= N * 2 ^ (- e1 - J))%Z).
  { intros N HN. rewrite Ha. rewrite (pow2_scale ex e1 J), Z.mul_assoc in HN by lia.
    apply (div_pow2_upper _ _ _ (loc_inexact lx)); try lia; [apply loc_inexact_bounds|].
    rewrite !loc_inexact_exact. exact Hloc. }
  assert (Hlo1 : forall N, (N * 2 ^ (- ex - J) <= mx)%Z -> (N * 2 ^ (- e1 - J) <= a)%Z).
  { intros N HN. rewrite Ha. rewrite (pow2_scale ex e1 J), Z.mul_assoc in HN by lia.
    apply div_pow2_lower; lia. }
  pose proof (round_nearest_even_bounds a l1) as Hb. pose proof (loc_inexact_bounds l1).
  set (b := round_nearest_even a l1) in *.
  destruct (shr_fexp prec emax b e1 loc_Exact) as [mrs2 e2] eqn:E2.
  destruct (shr_fexp_spec b e1 loc_Exact mrs2 e2 ltac:(lia) E2) as (He2 & Hc & _).
  assert (He2J : (e2 + J <= 0)%Z).
  { rewrite He2. apply (fexp_digits_bound J U); try lia. specialize (Hup1 U Hup). lia. }
  assert (Hc0 : (0 <= shr_m mrs2)%Z) by (rewrite Hc; apply Z.div_pos; lia).
  exists (shr_m mrs2), e2. split_and!; [| lia | done | done | | |].
  - destruct (shr_m mrs2) as [|c|c]; [done| |lia]. simpl.
    destruct (Z.leb_spec e2 (emax - prec)); [done|unfold emax, prec in *; lia].
  - intros N HN. rewrite Hc. apply Z.div_le_upper_bound; [lia|].
    specialize (Hup1 N HN). rewrite (pow2_scale e1 e2 J) in Hup1 by lia. nia.
  - intros N HN. rewrite Hc. apply Z.div_le_lower_bound; [lia|].
    specialize (Hlo1 N HN). rewrite (pow2_scale e1 e2 J) in Hlo1 by lia. nia.
  - intros X D HD Hh.
    assert (0 <= D * 2 ^ (e1 - ex))%Z by (assert (0 < 2 ^ (e1 - ex))%Z by lia; nia).
    pose proof (round_nearest_even_half a l1 X _ ltac:(done)
                  (shr_fexp_half mx ex lx X D mrs e1 Hmx HD Hh E1)) as Hnear.
    fold b in Hnear. rewrite Hc.
    assert (Hdiv : ((b / 2 ^ (e2 - e1)) * 2 ^ (e2 - e1) <= b)%Z)
      by (rewrite Z.mul_comm; apply Z.mul_div_le; lia).
    assert (He : (2 ^ (e2 - ex) = 2 ^ (e2 - e1) * 2 ^ (e1 - ex))%Z)
      by (rewrite <-Z.pow_add_r by lia; f_equal; lia).
    assert (2 ^ (e1 - ex) <= 2 ^ (- ex - J))%Z by (apply Z.pow_le_mono_r; lia).
    rewrite He. set (q := (b / 2 ^ (e2 - e1))%Z) in *.
    set (P := (2 ^ (e1 - ex))%Z) in *. assert (0 < P)%Z by (unfold P; lia).
    assert (2 * (q * 2 ^ (e2 - e1)) * P * D <= 2 * b * P * D)%Z by nia.
    nia.
Qed.

(** ** The operations of line 98 *)

Lemma pos_iter_xO p d : Zpos (Pos.iter xO p d) = (Zpos p * 2 ^ Zpos d)%Z.
Proof.
  induction d as [|d IH] using Pos.peano_ind; [simpl; lia|].
  rewrite Pos.iter_succ, (Pos2Z.inj_xO (Pos.iter xO p d)), IH, Pos2Z.inj_succ.
  rewrite Z.pow_succ_r by lia. lia.
Qed.

Lemma shl_align_spec mx ex ex' mz ez :
  shl_align mx ex ex' = (mz, ez) ->
  ez = Z.min ex ex' /\ Zpos mz = (Zpos mx * 2 ^ (ex - ez))%Z.
Proof.
  unfold shl_align. destruct (ex' - ex)%Z as [|d|d] eqn:Hd; intros [= <- <-].
  - rewrite Z.sub_diag. lia.
  - rewrite Z.sub_diag. lia.
  - rewrite pos_iter_xO. split; [lia|]. do 2 f_equal. lia.
Qed.

(** A positive integer below [2^53] times [2^-J] is a double exactly. *)
Lemma binary_normalize_exact n J :
  (0 < n < 2 ^ 53)%Z -> (0 <= J <= 1000)%Z ->
  exists m e, binary_normalize prec emax n (- J) false = S754_finite false m e /\
    (e + J <= 0)%Z /\ Zpos m = (n * 2 ^ (- e - J))%Z.
Proof.
  intros Hn HJ. destruct n as [|p|p]; try lia. unfold binary_normalize, binary_round.
  destruct (shl_align p (- J) _) as [mz ez] eqn:E. apply shl_align_spec in E as [Hez Hmz].
  assert (Hmz2 : (Zpos mz + loc_inexact loc_Exact = Zpos p * 2 ^ (- ez - J))%Z).
  { cbn [loc_inexact]. rewrite Z.add_0_r, Hmz. do 2 f_equal. lia. }
  destruct (binary_round_aux_bounds J (Zpos p) (Zpos mz) ez loc_Exact)
    as (c & e & Hr & [_ HeJ] & Hc & Hup & Hlo & _); try lia.
  cbn [loc_inexact] in Hmz2, Hup.
  specialize (Hup (Zpos p) ltac:(lia)). specialize (Hlo (Zpos p) ltac:(lia)).
  assert (0 < 2 ^ (- e - J))%Z by lia.
  destruct c as [|m|m]; [nia| |lia]. exists m, e. split_and!; [done|done|lia].
Qed.

Lemma py_float_of_int_exact n :
  (0 < n < 2 ^ 53)%Z ->
  exists m e, py_float_of_int n = Returns (S754_finite false m e) /\
    (e <= 0)%Z /\ Zpos m = (n * 2 ^ (- e))%Z.
Proof.
  intros Hn. destruct (binary_normalize_exact n 0) as (m & e & Hb & He & Hm); [lia|lia|].
  change (- 0)%Z with 0%Z in Hb. exists m, e.
  unfold py_float_of_int. rewrite Hb. split_and!; [done|lia|]. rewrite Hm. do 2 f_equal. lia.
Qed.

Lemma py_random_float_cases k :
  (0 <= k < 2 ^ 53)%Z ->
  (k = 0%Z /\ py_random_float k = S754_zero false) \/
  exists m e, py_random_float k = S754_finite false m e /\
    (e + 53 <= 0)%Z /\ Zpos m = (k * 2 ^ (- e - 53))%Z.
Proof.
  intros Hk. destruct (decide (k = 0%Z)) as [->|Hk0]; [by left|right].
  unfold py_random_float. apply (binary_normalize_exact k 53); lia.
Qed.

Lemma py_int_of_float_fin c e :
  (0 <= c)%Z -> (e <= 0)%Z -> py_int_of_float (fin c e) = Returns (c / 2 ^ (- e))%Z.
Proof.
  intros Hc He. destruct c as [|m|m]; simpl; [by rewrite Z.div_0_l by lia| |lia].
  by rewrite Z.shiftl_div_pow2.
Qed.

Lemma div_eucl_upper q r m2 M :
  (0 < m2)%Z -> (0 <= r < m2)%Z -> (q * m2 + r <= M * m2)%Z ->
  (q + (if r =? 0 then 0 else 1) <= M)%Z.
Proof. intros. destruct (Z.eqb_spec r 0); nia. Qed.

Lemma div_eucl_lower q r m2 M :
  (0 < m2)%Z -> (0 <= r < m2)%Z -> (M * m2 <= q * m2 + r)%Z -> (M <= q)%Z.
Proof. intros. nia. Qed.

Lemma new_location_inexact m2 r :
  loc_inexact (new_location m2 r) = (if r =? 0 then 0 else 1)%Z.
Proof.
  unfold new_location, new_location_even, new_location_odd.
  destruct (Z.even m2), (r =? 0)%Z; reflexivity.
Qed.

(** The location of a remainder [r] of a division by [m2] is in the
    upper half when [r] is at least half of [m2]. *)
Lemma new_location_upper m2 r :
  (0 < m2)%Z -> loc_upper (new_location m2 r) = true -> (m2 <= 2 * r)%Z.
Proof.
  intros Hm2. unfold new_location, new_location_even, new_location_odd.
  destruct (Z.even m2) eqn:He, (r =? 0)%Z; try discriminate.
  - destruct (Z.compare_spec (2 * r) m2); simpl; try discriminate; lia.
  - destruct (Z.compare_spec (2 * r + 1) m2); simpl; try discriminate; lia.
Qed.

(** [SFdiv_core_binary] is the Euclidean division of the dividend's
    mantissa, shifted to the exponent [e'], by the divisor's. *)
Lemma SFdiv_core_binary_spec m1 e1 m2 e2 q e' l :
  (0 < m1)%Z -> (0 < m2)%Z -> SFdiv_core_binary prec emax m1 e1 m2 e2 = (q, e', l) ->
  (e' <= e1 - e2)%Z /\
  (e' <= fexp prec emax (Zdigits2 m1 + e1 - (Zdigits2 m2 + e2)))%Z /\
  exists r, (m1 * 2 ^ (e1 - e2 - e') = q * m2 + r)%Z /\ (0 <= r < m2)%Z /\
    loc_inexact l = (if r =? 0 then 0 else 1)%Z /\ (loc_upper l = true -> m2 <= 2 * r)%Z.
Proof.
  intros Hm1 Hm2. unfold SFdiv_core_binary.
  set (e'' := Z.min _ _).
  assert (Hs : (0 <= e1 - e2 - e'')%Z) by lia.
  assert (Hm' : (match (e1 - e2 - e'')%Z with
                 | Zpos _ => Z.shiftl m1 (e1 - e2 - e'') | Z0 => m1 | Zneg _ => 0
                 end = m1 * 2 ^ (e1 - e2 - e''))%Z).
  { destruct (e1 - e2 - e'')%Z eqn:E; [lia| |lia]. rewrite <-E. apply Z.shiftl_mul_pow2. lia. }
  rewrite Hm'. pose proof (Z_div_mod (m1 * 2 ^ (e1 - e2 - e'')) m2 ltac:(lia)) as Hdm.
  destruct (Z.div_eucl _ _) as [q0 r] eqn:E. intros [= <- <- <-].
  split; [lia|]. split; [lia|]. exists r. rewrite new_location_inexact.
  split_and!; [lia|lia|lia|done|by apply new_location_upper].
Qed.

Lemma scale_upper a n N A S P1 P2 Q :
  (0 < A)%Z -> (0 <= S)%Z -> (P1 * S = P2 * Q * A)%Z ->
  (a * A <= N * n * P1)%Z -> (a * S <= N * Q * (n * P2))%Z.
Proof.
  intros HA HS Hp Hle. apply (Z.mul_le_mono_pos_r _ _ A); [done|].
  assert (a * A * S <= N * n * P1 * S)%Z by (apply Z.mul_le_mono_nonneg_r; lia).
  replace (N * Q * (n * P2) * A)%Z with (N * n * (P2 * Q * A))%Z by ring.
  rewrite <-Hp. lia.
Qed.

Lemma scale_lower a n N A S P1 P2 Q :
  (0 < A)%Z -> (0 <= S)%Z -> (P1 * S = P2 * Q * A)%Z ->
  (N * n * P1 <= a * A)%Z -> (N * Q * (n * P2) <= a * S)%Z.
Proof.
  intros HA HS Hp Hle. apply (Z.mul_le_mono_pos_r _ _ A); [done|].
  assert (N * n * P1 * S <= a * A * S)%Z by (apply Z.mul_le_mono_nonneg_r; lia).
  replace (N * Q * (n * P2) * A)%Z with (N * n * (P2 * Q * A))%Z by ring.
  rewrite <-Hp. lia.
Qed.

(** [random.random() * 1000]: the result [c * 2^e] keeps every integer
    bound of the exact product [k * 1000 / 2^53]. *)
Lemma random_mul_1000 k :
  (0 <= k < 2 ^ 53)%Z ->
  exists c e, py_mul_int (py_random_float k) 1000 = Returns (fin c e) /\
    (e + 43 <= 0)%Z /\ (0 <= c)%Z /\
    (forall N, (k * 1000 <= N * 2 ^ 10)%Z -> (c <= N * 2 ^ (- e - 43))%Z) /\
    (forall N, (N * 2 ^ 10 <= k * 1000)%Z -> (N * 2 ^ (- e - 43) <= c)%Z).
Proof.
  intros Hk. unfold py_mul_int.
  destruct (py_float_of_int_exact 1000) as (m2 & e2 & H2 & He2 & Hm2); [lia|].
  rewrite H2. cbn [obind].
  destruct (py_random_float_cases k Hk) as [[-> ->]|(m1 & e1 & H1 & He1 & Hm1)].
  - exists 0%Z, (-43)%Z. split_and!; [done|lia|lia|intros N HN; lia|intros N HN; lia].
  - rewrite H1.
    change (SFmul prec emax (S754_finite false m1 e1) (S754_finite false m2 e2))
      with (binary_round_aux prec emax false (Zpos (m1 * m2)) (e1 + e2) loc_Exact).
    assert (Hp : (2 ^ (- (e1 + e2) - 43) = 2 ^ (- e1 - 53) * 2 ^ (- e2) * 2 ^ 10)%Z).
    { rewrite <-!Z.pow_add_r by lia. f_equal. lia. }
    assert (0 < 2 ^ (- e1 - 53))%Z by lia. assert (0 < 2 ^ (- e2))%Z by lia.
    rewrite Pos2Z.inj_mul, Hm1, Hm2.
    destruct (binary_round_aux_bounds 43 (1000 * 2 ^ 43) (k * 2 ^ (- e1 - 53) * (1000 * 2 ^ (- e2)))
                (e1 + e2) loc_Exact) as (c & e & Hr & [_ HeJ] & Hc & Hup & Hlo & _);
      cbn [loc_inexact] in *; rewrite ?Hp in *; try nia.
    exists c, e. split_and!; [by rewrite Hr|lia|done| |].
    + intros N HN. apply Hup. nia.
    + intros N HN. apply Hlo. nia.
Qed.

(** The nearest-rounding bound of the division, moved from the
    exponents of [SFdiv_core_binary] to those of its operands. *)
Lemma scale_nearest c n X P E2 A B W K1 T :
  (0 < A)%Z -> (0 < K1)%Z -> (P * E2 * A = B * K1)%Z -> (T * E2 * A = B * W * K1)%Z ->
  (2 * c * P * (n * E2) <= 2 * (X * K1) + T * (n * E2))%Z ->
  (2 * c * n * B <= 2 * X * A + n * B * W)%Z.
Proof.
  intros HA HK H1 H2 Hn. apply (Z.mul_le_mono_pos_r _ _ K1); [done|].
  replace (2 * c * n * B * K1)%Z with (2 * c * n * (B * K1))%Z by ring.
  replace ((2 * X * A + n * B * W) * K1)%Z with (2 * X * K1 * A + n * (B * W * K1))%Z by ring.
  rewrite <-H1, <-H2. pose proof (Z.mul_le_mono_nonneg_r _ _ A ltac:(lia) Hn). lia.
Qed.

(** [x / len] for a double [x = c1 * 2^e1] in [[0, 1000]]: the result
    keeps every bound [N / 2^J] of the exact quotient, for any scale
    [2^-J] with [2^J <= 2^43 * len], and lies at most [2^-J / 2] above
    the exact quotient (rounding to nearest). *)
Lemma truediv_bounds J c1 e1 len :
  (0 <= J)%Z -> (2 ^ J <= 2 ^ 43 * len)%Z -> (e1 <= 0)%Z -> (0 <= c1 <= 1000 * 2 ^ (- e1))%Z ->
  (0 < len < 2 ^ 53)%Z ->
  exists c e, py_truediv_int (fin c1 e1) len = Returns (fin c e) /\
    (e + J <= 0)%Z /\ (0 <= c)%Z /\
    (forall N, (c1 * 2 ^ J <= N * len * 2 ^ (- e1))%Z -> (c <= N * 2 ^ (- e - J))%Z) /\
    (forall N, (N * len * 2 ^ (- e1) <= c1 * 2 ^ J)%Z -> (N * 2 ^ (- e - J) <= c)%Z) /\
    (2 * c * len * 2 ^ (- e1) <= 2 * c1 * 2 ^ (- e) + len * 2 ^ (- e1) * 2 ^ (- e - J))%Z.
Proof.
  intros HJ HJ43 He1 Hc1 Hlen. unfold py_truediv_int.
  destruct (py_float_of_int_exact len) as (m2 & e2 & H2 & He2 & Hm2); [lia|].
  rewrite H2. cbn [obind].
  assert (0 < 2 ^ (- e1))%Z by lia. assert (0 < 2 ^ J)%Z by lia.
  destruct c1 as [|p1|p1]; [|simpl fin|lia].
  - exists 0%Z, (- J)%Z. replace (- - J - J)%Z with 0%Z by lia.
    split_and!; [done|lia|lia|intros N HN; nia|intros N HN; nia|nia].
  - change (SFdiv prec emax (S754_finite false p1 e1) (S754_finite false m2 e2))
      with (let '(mz, ez, lz) := SFdiv_core_binary prec emax (Zpos p1) e1 (Zpos m2) e2 in
            binary_round_aux prec emax false mz ez lz).
    destruct (SFdiv_core_binary prec emax _ _ _ _) as [[q e'] l] eqn:Ed.
    destruct (SFdiv_core_binary_spec (Zpos p1) e1 (Zpos m2) e2 q e' l ltac:(lia) ltac:(lia) Ed)
      as (Hs & Hf & r & Hq & Hr & Hl & Hlu).
    pose proof (digits2_pos_bounds p1) as [Hd1 _]. pose proof (digits2_pos_bounds m2) as [_ Hd2].
    simpl Zdigits2 in Hf. assert (0 < 2 ^ (- e2))%Z by lia.
    assert (HJ96 : (J < 96)%Z).
    { assert (Hz : (2 ^ J < 2 ^ 96)%Z) by (change (2 ^ 96)%Z with (2 ^ 43 * 2 ^ 53)%Z; nia).
      apply Z.pow_lt_mono_r_iff in Hz; lia. }
    assert (He'J : (e' + J <= 0)%Z).
    { assert (Hx : (2 ^ (Zpos (digits2_pos p1) - 1) < 2 ^ (10 + - e1))%Z)
        by (rewrite Z.pow_add_r by lia; nia).
      assert (Hy : (2 ^ (J + - e2) < 2 ^ (43 + Zpos (digits2_pos m2)))%Z)
        by (rewrite !Z.pow_add_r by lia; nia).
      apply Z.pow_lt_mono_r_iff in Hx, Hy; try lia.
      unfold fexp, emin, prec, emax in Hf. lia. }
    assert (Hpow : (2 ^ (- e1) * 2 ^ (e1 - e2 - e') = 2 ^ (- e2) * 2 ^ (- e' - J) * 2 ^ J)%Z)
      by pow2_eq.
    assert (0 < 2 ^ (e1 - e2 - e'))%Z by lia. assert (0 < 2 ^ (- e' - J))%Z by lia.
    assert (Hup : forall N, (Zpos p1 * 2 ^ J <= N * len * 2 ^ (- e1))%Z ->
                  (q + loc_inexact l <= N * 2 ^ (- e' - J))%Z).
    { intros N HN. rewrite Hl. apply (div_eucl_upper _ _ (Zpos m2)); [lia|lia|].
      rewrite <-Hq, Hm2. by eapply scale_upper; [| |exact Hpow|]; lia. }
    assert (Hlo : forall N, (N * len * 2 ^ (- e1) <= Zpos p1 * 2 ^ J)%Z ->
                  (N * 2 ^ (- e' - J) <= q)%Z).
    { intros N HN. apply (div_eucl_lower _ r (Zpos m2)); [lia|lia|].
      rewrite <-Hq, Hm2. by eapply scale_lower; [| |exact Hpow|]; lia. }
    assert (0 <= q)%Z by (specialize (Hlo 0%Z ltac:(nia)); lia).
    set (U := (1000 * 2 ^ J / len + 1)%Z).
    assert (HU : (1000 * 2 ^ J < len * U)%Z) by apply Z.mul_succ_div_gt, Hlen.
    assert (HU' : (U <= 1000 * 2 ^ 43 + 1)%Z)
      by (enough (1000 * 2 ^ J / len <= 1000 * 2 ^ 43)%Z by lia; apply Z.div_le_upper_bound; lia).
    destruct (binary_round_aux_bounds J U q e' l)
      as (c & e & Hround & [Hee' HeJ] & Hc & Hup' & Hlo' & Hnear); try lia.
    { apply (Hup U). clear -Hc1 HU H H0. set (A := (2 ^ J)%Z) in *.
      set (P := (2 ^ (- e1))%Z) in *. nia. }
    exists c, e. split_and!; [by rewrite Hround|done|done| | |].
    + intros N HN. apply Hup', Hup, HN.
    + intros N HN. apply Hlo', Hlo, HN.
    + specialize (Hnear (Zpos p1 * 2 ^ (e1 - e2 - e'))%Z (Zpos m2) ltac:(lia)).
      rewrite Hm2 in Hnear. apply (scale_nearest c len (Zpos p1) (2 ^ (e - e')) (2 ^ (- e2)) (2 ^ (- e)) (2 ^ (- e1))
        (2 ^ (- e - J)) (2 ^ (e1 - e2 - e')) (2 ^ (- e' - J)));
        [lia|lia|pow2_eq|pow2_eq|apply Hnear].
      rewrite <-Hm2. split; [nia|]. intros Hu. specialize (Hlu Hu). nia.
Qed.

Lemma trunc_upper c e J N :
  (e + J <= 0)%Z -> (0 <= J)%Z -> (c <= N * 2 ^ (- e - J))%Z -> (c / 2 ^ (- e) <= N / 2 ^ J)%Z.
Proof.
  intros He HJ Hc. assert (0 < 2 ^ (- e - J))%Z by lia.
  replace (- e)%Z with ((- e - J) + J)%Z by lia. rewrite Z.pow_add_r by lia.
  rewrite <-(Z.div_mul_cancel_l N (2 ^ J) (2 ^ (- e - J))) by lia.
  apply Z.div_le_mono; lia.
Qed.

Lemma trunc_lower c e N :
  (e <= 0)%Z -> (N * 2 ^ (- e) <= c)%Z -> (N <= c / 2 ^ (- e))%Z.
Proof. intros. apply Z.div_le_lower_bound; lia. Qed.

(** [random.random() * 1000] for the largest draw [2^53 - 1]: the
    double just below [1000]. *)
Lemma random_mul_1000_top :
  py_mul_int (py_random_float (2 ^ 53 - 1)) 1000 = Returns (fin 8796093022207999 (-43)).
Proof. vm_compute. reflexivity. Qed.

(** Everything [sleeptime] computes: the product [x = c1 * 2^e1] of
    [random.random() * 1000], at most the double [1000 - 2^-43] just
    below [1000], and for every length, at any scale [2^-J] the
    division resolves, the quotient [c * 2^e] whose truncation is
    returned, within [2^-J / 2] above the exact quotient. *)
Lemma sleeptime_bounds k :
  (0 <= k < 2 ^ 53)%Z ->
  exists c1 e1, (e1 <= 0)%Z /\ (0 <= c1 <= 1000 * 2 ^ (- e1))%Z /\
    (c1 * 2 ^ 43 <= (1000 * 2 ^ 43 - 1) * 2 ^ (- e1))%Z /\
    (forall N, (k * 1000 <= N * 2 ^ 53)%Z -> (c1 <= N * 2 ^ (- e1))%Z) /\
    (forall N, (N * 2 ^ 53 <= k * 1000)%Z -> (N * 2 ^ (- e1) <= c1)%Z) /\
    forall J len, (0 <= J)%Z -> (2 ^ J <= 2 ^ 43 * Z.of_nat len)%Z ->
    (0 < Z.of_nat len < 2 ^ 53)%Z ->
    exists c e, sleeptime k len = Returns (c / 2 ^ (- e))%Z /\
      (e + J <= 0)%Z /\ (0 <= c)%Z /\
      (forall N, (c1 * 2 ^ J <= N * Z.of_nat len * 2 ^ (- e1))%Z -> (c <= N * 2 ^ (- e - J))%Z) /\
      (forall N, (N * Z.of_nat len * 2 ^ (- e1) <= c1 * 2 ^ J)%Z -> (N * 2 ^ (- e - J) <= c)%Z) /\
      (2 * c * Z.of_nat len * 2 ^ (- e1) <=
       2 * c1 * 2 ^ (- e) + Z.of_nat len * 2 ^ (- e1) * 2 ^ (- e - J))%Z.
Proof.
  intros Hk.
  destruct (random_mul_1000 k Hk) as (c1 & e1 & Hx & He1 & Hc1 & Hup1 & Hlo1).
  assert (Hp : forall N, (N * 2 ^ 43 * 2 ^ (- e1 - 43) = N * 2 ^ (- e1))%Z)
    by (intros N; rewrite <-Z.mul_assoc; f_equal; pow2_eq).
  assert (Hup0 : forall N, (k * 1000 <= N * 2 ^ 53)%Z -> (c1 <= N * 2 ^ (- e1))%Z).
  { intros N HN. rewrite <-Hp. apply Hup1. lia. }
  assert (Hlo0 : forall N, (N * 2 ^ 53 <= k * 1000)%Z -> (N * 2 ^ (- e1) <= c1)%Z).
  { intros N HN. rewrite <-Hp. apply Hlo1. lia. }
  assert (Htop : (c1 * 2 ^ 43 <= (1000 * 2 ^ 43 - 1) * 2 ^ (- e1))%Z).
  { destruct (decide (k = 2 ^ 53 - 1)%Z) as [->|Hk'].
    - rewrite random_mul_1000_top in Hx. injection Hx as Hx.
      destruct c1 as [|m|m]; simpl in Hx; try discriminate. injection Hx as <- <-. lia.
    - specialize (Hup1 (1000 * 2 ^ 43 - 1)%Z ltac:(lia)).
      rewrite <-(Hp (1000 * 2 ^ 43 - 1)%Z). nia. }
  assert (Hc1' : (c1 <= 1000 * 2 ^ (- e1))%Z) by (apply Hup0; lia).
  exists c1, e1. split_and!; try done; try lia. intros J len HJ HJ43 Hlen.
  destruct (truediv_bounds J c1 e1 (Z.of_nat len) HJ HJ43 ltac:(lia) ltac:(lia) Hlen)
    as (c & e & Hy & HeJ & Hc & Hup & Hlo & Hnear).
  exists c, e. split_and!; try done.
  unfold sleeptime. rewrite Hx. cbn [obind]. rewrite Hy. cbn [obind].
  apply py_int_of_float_fin; lia.
Qed.

Lemma div_pow2_pred F J : (0 <= J)%Z -> (((F + 1) * 2 ^ J - 1) / 2 ^ J = F)%Z.
Proof.
  intros HJ. assert (0 < 2 ^ J)%Z by lia.
  replace ((F + 1) * 2 ^ J - 1)%Z with ((2 ^ J - 1) + F * 2 ^ J)%Z by ring.
  rewrite Z.div_add by lia. rewrite Z.div_small by lia. lia.
Qed.

(** ** The delay *)

(** C20: with Python's doubles the delay is the floor of the exact
    [k * 1000 / (2^53 * len)] or one more: the two roundings can carry
    the quotient over the next integer, never further. *)
Theorem sleeptime_floor_or_next k len :
  (0 <= k < 2 ^ 53)%Z -> (0 < Z.of_nat len < 2 ^ 53)%Z ->
  exists d, sleeptime k len = Returns d /\
    (k * 1000 / (2 ^ 53 * Z.of_nat len) <= d <= k * 1000 / (2 ^ 53 * Z.of_nat len) + 1)%Z.
Proof.
  intros Hk Hlen.
  destruct (sleeptime_bounds k Hk) as (c1 & e1 & He1 & Hc1 & _ & Hup1 & Hlo1 & Hdiv).
  destruct (Hdiv 0%Z len ltac:(lia) ltac:(lia) Hlen) as (c & e & Hd & He & Hc & Hup & Hlo & _).
  set (n := Z.of_nat len) in *. set (E := (k * 1000 / (2 ^ 53 * n))%Z).
  pose proof (Z.mul_div_le (k * 1000) (2 ^ 53 * n) ltac:(lia)) as HE.
  pose proof (Z.mul_succ_div_gt (k * 1000) (2 ^ 53 * n) ltac:(lia)) as HE1.
  fold E in HE, HE1. exists (c / 2 ^ (- e))%Z. split; [done|]. split.
  - apply trunc_lower; [lia|]. specialize (Hlo E). rewrite Z.sub_0_r, Z.mul_1_r in Hlo.
    apply Hlo, Hlo1. lia.
  - pose proof (trunc_upper c e 0 (E + 1) ltac:(lia) ltac:(lia)) as Ht.
    rewrite Z.pow_0_r, Z.div_1_r in Ht. apply Ht.
    apply Hup. rewrite Z.mul_1_r. apply Hup1. lia.
Qed.

(** The delay lies in [[0, 1000 / len]]: faithful rounding. *)
Lemma sleeptime_le k len :
  (0 <= k < 2 ^ 53)%Z -> (0 < Z.of_nat len < 2 ^ 53)%Z ->
  exists d, sleeptime k len = Returns d /\ (0 <= d)%Z /\ (d * Z.of_nat len <= 1000)%Z.
Proof.
  intros Hk Hlen.
  destruct (sleeptime_bounds k Hk) as (c1 & e1 & He1 & Hc1 & _ & _ & _ & Hdiv).
  set (n := Z.of_nat len) in *. assert (0 < 2 ^ (- e1))%Z by lia.
  destruct (Z_le_gt_dec n (2 ^ 42)) as [Hsmall|Hbig].
  - destruct (Hdiv 42%Z len ltac:(lia) ltac:(lia) Hlen) as (c & e & Hd & He & Hc & Hup & _).
    set (F := (1000 / n)%Z).
    pose proof (Z.mul_succ_div_gt 1000 n ltac:(lia)) as HF. fold F in HF.
    assert (HN : (1000 * 2 ^ 42 <= ((F + 1) * 2 ^ 42 - 1) * n)%Z) by nia.
    assert (Hx : (c1 * 2 ^ 42 <= ((F + 1) * 2 ^ 42 - 1) * n * 2 ^ (- e1))%Z).
    { transitivity (1000 * 2 ^ 42 * 2 ^ (- e1))%Z; [nia|].
      apply Z.mul_le_mono_nonneg_r; lia. }
    pose proof (trunc_upper c e 42 _ He ltac:(lia) (Hup _ Hx)) as Ht.
    rewrite div_pow2_pred in Ht by lia.
    exists (c / 2 ^ (- e))%Z. split_and!; [done|apply Z.div_pos; lia|].
    pose proof (Z.mul_div_le 1000 n ltac:(lia)). fold F in H0. nia.
  - destruct (Hdiv 9%Z len ltac:(lia) ltac:(lia) Hlen) as (c & e & Hd & He & Hc & Hup & _).
    assert (Hx : (c1 * 2 ^ 9 <= 511 * n * 2 ^ (- e1))%Z).
    { transitivity (1000 * 2 ^ 9 * 2 ^ (- e1))%Z; [nia|].
      apply Z.mul_le_mono_nonneg_r; lia. }
    pose proof (trunc_upper c e 9 _ He ltac:(lia) (Hup _ Hx)) as Ht.
    change (511 / 2 ^ 9)%Z with 0%Z in Ht.
    exists (c / 2 ^ (- e))%Z. split_and!; [done|apply Z.div_pos; lia|].
    assert (c / 2 ^ (- e) = 0)%Z by (pose proof (Z.div_pos c (2 ^ (- e))); lia). nia.
Qed.

(** The gap that rounding to nearest leaves: the quotient of a double
    at most [1000 - 2^-43] by [n] never reaches [1000 / n], so its
    truncation [d] never has [d * n = 1000]. *)
Lemma sleeptime_not_exact k len d :
  (0 <= k < 2 ^ 53)%Z -> (0 < Z.of_nat len < 2 ^ 53)%Z -> sleeptime k len = Returns d ->
  (d * Z.of_nat len <> 1000)%Z.
Proof.
  intros Hk Hlen Hd Heq.
  destruct (sleeptime_bounds k Hk) as (c1 & e1 & He1 & Hc1 & Htop & _ & _ & Hdiv).
  set (n := Z.of_nat len) in *. set (L := (2 ^ Z.log2 n)%Z).
  pose proof (Z.log2_spec n ltac:(lia)) as [HL1 HL2]. pose proof (Z.log2_nonneg n).
  rewrite Z.pow_succ_r in HL2 by lia. fold L in HL1, HL2.
  assert (HJ : (2 ^ (43 + Z.log2 n) = 2 ^ 43 * L)%Z) by (apply Z.pow_add_r; lia).
  destruct (Hdiv (43 + Z.log2 n)%Z len ltac:(lia) ltac:(rewrite HJ; nia) Hlen)
    as (c & e & Hd' & HeJ & Hc & _ & _ & Hnear).
  rewrite Hd in Hd'. injection Hd' as ->.
  set (A := (2 ^ (- e))%Z) in *. set (B := (2 ^ (- e1))%Z) in *.
  set (W := (2 ^ (- e - (43 + Z.log2 n)))%Z) in *.
  assert (HA : (A = W * (2 ^ 43 * L))%Z) by (unfold A, W; rewrite <-HJ; pow2_eq).
  assert (0 < B)%Z by (unfold B; lia). assert (0 < W)%Z by (unfold W; lia).
  assert (Hc0 : (c / A * A <= c)%Z) by (rewrite Z.mul_comm; apply Z.mul_div_le; lia).
  set (d := (c / A)%Z) in *.
  set (P := (2 ^ 43)%Z) in *. assert (0 < P)%Z by (unfold P; lia).
  assert (0 < A)%Z by (unfold A; lia). assert (0 <= n * B)%Z by lia.
  (* [2000 * A * B <= 2 * c * n * B <= 2 * c1 * A + n * B * W] *)
  assert (Hs1 : (2 * (d * A) * (n * B) <= 2 * c * (n * B))%Z)
    by (apply Z.mul_le_mono_nonneg_r; lia).
  assert (Hs2 : (2000 * A * B <= 2 * c1 * A + n * B * W)%Z).
  { assert (E : (2 * (d * A) * (n * B) = 2 * (d * n) * A * B)%Z) by ring.
    rewrite Heq in E. lia. }
  apply (Z.mul_le_mono_nonneg_r _ _ P) in Hs2; [|lia].
  assert (Hs3 : (c1 * P * (2 * A) <= (1000 * P - 1) * B * (2 * A))%Z)
    by (apply Z.mul_le_mono_nonneg_r; lia).
  assert (Hs4 : (2 * A * B <= n * W * P * B)%Z) by lia.
  apply Z.mul_le_mono_pos_r in Hs4; [|lia].
  rewrite HA in Hs4.
  replace (n * W * P)%Z with (n * (W * P))%Z in Hs4 by ring.
  replace (2 * (W * (P * L)))%Z with (2 * L * (W * P))%Z in Hs4 by ring.
  apply Z.mul_le_mono_pos_r in Hs4; [lia|nia].
Qed.

(** The delay lies in [[0, 1000 / len)]. *)
Lemma sleeptime_bound k len :
  (0 <= k < 2 ^ 53)%Z -> (0 < Z.of_nat len < 2 ^ 53)%Z ->
  exists d, sleeptime k len = Returns d /\ (0 <= d)%Z /\ (d * Z.of_nat len < 1000)%Z.
Proof.
  intros Hk Hlen. destruct (sleeptime_le k len Hk Hlen) as (d & Hd & Hd0 & Hd1).
  pose proof (sleeptime_not_exact k len d Hk Hlen Hd). exists d. split_and!; [done|done|lia].
Qed.

(** C21: the delay lies in [[0, 1000 / len)] milliseconds, as the
    specification's scenario 4 requires: Python's doubles round to
    nearest, so the two roundings never carry the quotient up to
    [1000 / len]. *)
Theorem sleeptime_range k len :
  (0 <= k < 2 ^ 53)%Z -> (0 < Z.of_nat len < 2 ^ 53)%Z ->
  exists d, sleeptime k len = Returns d /\ (0 <= d)%Z /\ (d * Z.of_nat len < 1000)%Z.
Proof. apply sleeptime_bound. Qed.

(** C12: drawn from the same random number, the delay of a longer snake
    is never longer. *)
Theorem sleeptime_antitone k len len' d d' :
  (0 <= k < 2 ^ 53)%Z -> (0 < len)%nat -> (len <= len')%nat -> (Z.of_nat len' <= 2 ^ 42)%Z ->
  sleeptime k len = Returns d -> sleeptime k len' = Returns d' -> (d' <= d)%Z.
Proof.
  intros Hk Hlen Hle Hlen' Hd Hd'.
  destruct (decide (len = len')) as [<-|Hne]; [rewrite Hd in Hd'; injection Hd' as ->; lia|].
  destruct (sleeptime_bounds k Hk) as (c1 & e1 & He1 & Hc1 & _ & _ & _ & Hdiv).
  destruct (Hdiv 0%Z len ltac:(lia) ltac:(lia) ltac:(lia)) as (c & e & Hd0 & He & Hc & _ & Hlo & _).
  destruct (Hdiv 42%Z len' ltac:(lia) ltac:(lia) ltac:(lia)) as (c' & e' & Hd1 & He' & Hc' & Hup & _).
  rewrite Hd in Hd0. rewrite Hd' in Hd1. injection Hd0 as ->. injection Hd1 as ->.
  set (n := Z.of_nat len) in *. set (n' := Z.of_nat len') in *.
  set (m := (c' / 2 ^ (- e'))%Z). set (P1 := (2 ^ (- e1))%Z) in *.
  assert (0 < P1)%Z by (unfold P1; lia).
  assert (0 <= m)%Z by (apply Z.div_pos; lia).
  destruct (decide (m = 0%Z)) as [->|Hm]; [apply Z.div_pos; lia|].
  destruct (Z_le_gt_dec (m * n * P1) c1) as [Hin|Hout].
  - apply trunc_lower; [lia|]. specialize (Hlo m). rewrite Z.sub_0_r, Z.mul_1_r in Hlo. auto.
  - exfalso.
    assert (m * P1 * n <= m * P1 * (n' - 1))%Z by (apply Z.mul_le_mono_nonneg_l; lia).
    assert (n' * P1 <= (2 ^ 42 * m) * P1)%Z by (apply Z.mul_le_mono_nonneg_r; lia).
    assert (Hx : (c1 * 2 ^ 42 <= (m * 2 ^ 42 - 1) * n' * P1)%Z) by lia.
    pose proof (trunc_upper c' e' 42 _ He' ltac:(lia) (Hup _ Hx)) as Ht.
    replace (m * 2 ^ 42 - 1)%Z with (((m - 1) + 1) * 2 ^ 42 - 1)%Z in Ht by ring.
    rewrite div_pow2_pred in Ht by lia. unfold m in Ht. lia.
Qed.

(** C22: [len(self.snake_body) == 0] makes the division raise
    [ZeroDivisionError]. *)
Theorem sleeptime_empty_body k :
  (0 <= k < 2 ^ 53)%Z -> sleeptime k 0 = Raises ZeroDivisionError.
Proof.
  intros Hk. destruct (random_mul_1000 k Hk) as (c1 & e1 & Hx & _).
  unfold sleeptime. rewrite Hx. reflexivity.
Qed.

(** The two roundings of Python's doubles carry the delay over the
    exact floor: [random.random() = 1080863910568919 / 2^53] and a
    five-cell body give 24 ms where [floor(random() * 1000 / 5)] is
    23. *)
Example sleeptime_rounds_up :
  sleeptime 1080863910568919 5 = Returns 24%Z /\
  (1080863910568919 * 1000 / (2 ^ 53 * 5) = 23)%Z.
Proof. split; vm_compute; reflexivity. Qed.

(** ** Witnesses *)

Lemma sleeptime_floor_or_next_witness :
  exists d, sleeptime 1080863910568919 5 = Returns d /\
    (1080863910568919 * 1000 / (2 ^ 53 * Z.of_nat 5) <= d <=
     1080863910568919 * 1000 / (2 ^ 53 * Z.of_nat 5) + 1)%Z.
Proof. apply sleeptime_floor_or_next; lia. Defined.

Lemma sleeptime_range_witness :
  exists d, sleeptime (2 ^ 53 - 1) 5 = Returns d /\ (0 <= d)%Z /\ (d * Z.of_nat 5 < 1000)%Z.
Proof. apply sleeptime_range; lia. Defined.

Lemma sleeptime_antitone_witness :
  exists d d', sleeptime 1080863910568919 5 = Returns d /\
    sleeptime 1080863910568919 6 = Returns d' /\ (d' <= d)%Z.
Proof.
  assert (H5 : sleeptime 1080863910568919 5 = Returns 24%Z) by (vm_compute; reflexivity).
  assert (H6 : sleeptime 1080863910568919 6 = Returns 20%Z) by (vm_compute; reflexivity).
  exists 24%Z, 20%Z. split_and!; [exact H5|exact H6|].
  apply (sleeptime_antitone 1080863910568919 5 6); [lia|lia|lia|lia|exact H5|exact H6].
Defined.

Lemma sleeptime_empty_body_witness : sleeptime 123456789 0 = Raises ZeroDivisionError.
Proof. apply sleeptime_empty_body. lia. Defined.

End PyFloat.
