(* ===== verification/Grid.v ===== *)
(** * Grid: cells, directions and wrap-around arithmetic

    Models the geometry of [src/snake.py]: the tuple [(dx, dy)] a key
    binding stands for ([binding2direction], lines 8-14), the opposite
    of a direction computed in [on_key] (line 65), the two lines of
    [move] that compute the new head modulo the grid (lines 76-77), and
    the order in which [__init__] enumerates the cells of the canvas
    (lines 39-44).  Python's [%] is [py_mod]: floor modulo, raising
    [ZeroDivisionError] on a zero divisor. *)

From S2P Require Import Prelude.

Module Grid.

(** A cell [(x, y)] and a direction [(dx, dy)] are both integer pairs,
    as in the source (notations, so that lemmas on pairs apply). *)
Abbreviation cell := (Z * Z)%type.
Abbreviation direction := (Z * Z)%type.

(** The four Tk key symbols bound in [main]. *)
Inductive binding := Up | Down | Left | Right.

#[export] Instance binding_eq_dec : EqDecision binding.
Proof. solve_decision. Defined.

Definition binding2direction (b : binding) : direction :=
  match b with
  | Up => (0, -1)
  | Down => (0, 1)
  | Left => (-1, 0)
  | Right => (1, 0)
  end%Z.

(** [opposite = (-self.previous_direction[0], -self.previous_direction[1])] *)
Definition opposite (d : direction) : direction := (- d.1, - d.2)%Z.

(** [x = (last_x + dx) % self.width; y = (last_y + dy) % self.height] *)
Definition wrap_step (width height : Z) (last : cell) (d : direction) : outcome cell :=
  x <- py_mod (last.1 + d.1) width ;;
  y <- py_mod (last.2 + d.2) height ;;
  Returns (x, y).

(** The cell [wrap_step] returns when both sizes are nonzero. *)
Definition wrap (width height : Z) (c : cell) : cell :=
  (c.1 mod width, c.2 mod height)%Z.

(** The cell one step from [c] in direction [d] on the torus. *)
Definition next_cell (width height : Z) (c : cell) (d : direction) : cell :=
  wrap width height (c.1 + d.1, c.2 + d.2)%Z.

Definition all_bindings : list binding := [Up; Down; Left; Right].

Definition in_grid (width height : Z) (c : cell) : Prop :=
  (0 <= c.1 < width /\ 0 <= c.2 < height)%Z.

#[export] Instance in_grid_dec w h c : Decision (in_grid w h c).
Proof. unfold in_grid. solve_decision. Defined.

(** The keys of [self.item_ids], in the order the two nested [for]
    loops of [__init__] insert them: [x] outer, [y] inner. *)
Definition grid_cells (width height : Z) : list cell :=
  list_prod (seqZ 0 width) (seqZ 0 height).

(** ** Lemmas *)

Lemma wrap_step_wrap w h c d :
  w <> 0%Z -> h <> 0%Z -> wrap_step w h c d = Returns (wrap w h (c.1 + d.1, c.2 + d.2)%Z).
Proof. intros Hw Hh. unfold wrap_step. by rewrite !py_mod_ok. Qed.

Lemma wrap_in_grid w h c : (0 < w)%Z -> (0 < h)%Z -> in_grid w h (wrap w h c).
Proof.
  intros Hw Hh. unfold in_grid, wrap; simpl.
  split; apply Z.mod_pos_bound; lia.
Qed.

Lemma wrap_id w h c : in_grid w h c -> wrap w h c = c.
Proof.
  destruct c as [x y]. intros [Hx Hy]. unfold wrap; simpl.
  by rewrite !Z.mod_small.
Qed.

(** A shift by at most two is invisible modulo [w] only if it is zero. *)
Lemma mod_shift_zero n s w :
  (0 <= n < w)%Z -> (2 < w)%Z -> (-2 <= s <= 2)%Z -> ((n + s) mod w = n)%Z -> s = 0%Z.
Proof.
  intros Hn Hw Hs Hmod.
  rewrite Z.mod_eq in Hmod by lia.
  set (q := ((n + s) / w)%Z) in *.
  assert (s = w * q)%Z as Hq by lia.
  destruct (Z.lt_trichotomy q 0) as [?|[?|?]]; nia.
Qed.

Lemma direction_bounds b :
  (-1 <= (binding2direction b).1 <= 1 /\ -1 <= (binding2direction b).2 <= 1)%Z.
Proof. destruct b; simpl; lia. Qed.

Lemma opposite_binding_cases b b' :
  binding2direction b' = opposite (binding2direction b) <->
  (b, b') ∈ [(Up, Down); (Down, Up); (Left, Right); (Right, Left)].
Proof.
  rewrite !elem_of_cons, elem_of_nil.
  destruct b, b'; simpl; split; intros H; try done;
    intuition congruence.
Qed.

Lemma elem_of_grid_cells w h c : c ∈ grid_cells w h <-> in_grid w h c.
Proof.
  destruct c as [x y]. unfold grid_cells, in_grid; simpl.
  rewrite list_elem_of_In, in_prod_iff, <-!list_elem_of_In, !elem_of_seqZ. lia.
Qed.

Lemma NoDup_list_prod {A B} (l : list A) (l' : list B) :
  NoDup l -> NoDup l' -> NoDup (list_prod l l').
Proof.
  intros Hl Hl'. induction Hl as [|a l Ha Hl IH]; simpl; [constructor|].
  apply NoDup_app. split_and!; [| |done].
  - clear IH. induction Hl' as [|b l' Hb _ IH']; simpl; constructor; [|done].
    intros (? & [= <-] & ?)%list_elem_of_In%in_map_iff. by apply Hb, list_elem_of_In.
  - intros [x y] Hxy Hin. apply list_elem_of_In, in_prod_iff in Hin as [Hin _].
    apply list_elem_of_In, in_map_iff in Hxy as (? & [= -> _] & _).
    apply Ha, list_elem_of_In, Hin.
Qed.

Lemma NoDup_grid_cells w h : NoDup (grid_cells w h).
Proof. apply NoDup_list_prod; apply NoDup_seqZ. Qed.

Lemma length_grid_cells w h :
  (0 <= w)%Z -> (0 <= h)%Z -> Z.of_nat (length (grid_cells w h)) = (w * h)%Z.
Proof. intros. unfold grid_cells. rewrite length_prod, !length_seqZ. lia. Qed.

(** A duplicate-free list of grid cells has at most [width * height]
    of them. *)
Lemma in_grid_length w h (l : list cell) :
  (0 <= w)%Z -> (0 <= h)%Z -> NoDup l -> Forall (in_grid w h) l ->
  (Z.of_nat (length l) <= w * h)%Z.
Proof.
  intros Hw Hh Hnd Hl. rewrite <-length_grid_cells by done. apply Nat2Z.inj_le.
  apply NoDup_incl_length; [by apply NoDup_ListNoDup|].
  intros c Hc%list_elem_of_In. apply list_elem_of_In, elem_of_grid_cells.
  by eapply Forall_forall.
Qed.

(** Stepping twice, by [p] then by [d], returns to the start cell of a
    grid at least 3 wide and 3 high only when [d] is the opposite of
    [p]. *)
Lemma wrap_back_opposite w h n b b' :
  (2 < w)%Z -> (2 < h)%Z -> in_grid w h n ->
  let p := binding2direction b in let d := binding2direction b' in
  wrap w h ((wrap w h (n.1 + p.1, n.2 + p.2)).1 + d.1,
            (wrap w h (n.1 + p.1, n.2 + p.2)).2 + d.2)%Z = n ->
  d = opposite p.
Proof.
  intros Hw Hh [Hx Hy] p d. subst p d. destruct n as [x y]. unfold wrap; simpl in *.
  rewrite !Z.add_mod_idemp_l by lia. intros [= Ex Ey].
  rewrite <-Z.add_assoc in Ex, Ey.
  pose proof (direction_bounds b). pose proof (direction_bounds b').
  apply mod_shift_zero in Ex; [|lia..]. apply mod_shift_zero in Ey; [|lia..].
  unfold opposite. destruct (binding2direction b), (binding2direction b'); simpl in *.
  f_equal; lia.
Qed.

Lemma step_in_grid w h c d : (0 < w)%Z -> (0 < h)%Z -> in_grid w h (next_cell w h c d).
Proof. intros. by apply wrap_in_grid. Qed.

Lemma elem_of_all_bindings b : b ∈ all_bindings.
Proof. destruct b; cbv; repeat constructor. Qed.

(** C15: the wrap-around arithmetic of [move] always lands on a cell
    of the grid, the one [next_cell] names. *)
Theorem wrap_step_in_grid w h c d :
  (0 < w)%Z -> (0 < h)%Z ->
  exists c', wrap_step w h c d = Returns c' /\ c' = next_cell w h c d /\ in_grid w h c'.
Proof.
  intros Hw Hh. exists (next_cell w h c d). split_and!; [|done|by apply step_in_grid].
  apply wrap_step_wrap; lia.
Qed.

(** C29: on any grid with positive sizes, a step from a grid cell in
    direction [d] followed by a step in [opposite d] (line 65) comes back
    to the cell: the modulo arithmetic of lines 76-77 undoes itself. *)
Theorem next_cell_opposite w h c d :
  (0 < w)%Z -> (0 < h)%Z -> in_grid w h c ->
  next_cell w h (next_cell w h c d) (opposite d) = c.
Proof.
  intros Hw Hh Hc. destruct c as [x y], d as [dx dy]. unfold next_cell, wrap, opposite; simpl.
  rewrite !Z.add_mod_idemp_l by lia.
  replace (x + dx + - dx)%Z with x by ring. replace (y + dy + - dy)%Z with y by ring.
  apply (wrap_id w h (x, y) Hc).
Qed.

Lemma wrap_step_in_grid_witness :
  (exists c', wrap_step 15 10 (4, 0) (0, -1) = Returns c' /\ c' = next_cell 15 10 (4, 0) (0, -1) /\
    in_grid 15 10 c')%Z.
Proof. apply wrap_step_in_grid; lia. Defined.

Lemma next_cell_opposite_witness :
  (next_cell 15 10 (next_cell 15 10 (0, 5) (-1, 0)) (opposite (-1, 0)) = (0, 5))%Z.
Proof. apply next_cell_opposite; [lia|lia|split; simpl; lia]. Defined.

#[export] Hint Resolve wrap_in_grid step_in_grid elem_of_all_bindings : snake.

End Grid.
