(* ===== verification/Random.v ===== *)
(** * Random: the interface of Python's [random] module used by the game

    [src/snake.py] draws from the global generator of Python's [random]
    module in two places: [random.randrange] in [make_food] (lines
    52-55) and [random.random] for the timer delay in [move] (line 98).
    The generator is a library the program only calls, so it is
    modelled as an interface: a state type [R] with the two draws, and
    the laws the game relies on.  [random.random()] returns [k / 2^53]
    for an integer [0 <= k < 2^53]; [random53] returns that [k].

    [Scripted] is an instance that replays a list of integers; the
    witnesses of the development run the game on it. *)

From S2P Require Import Prelude.

Module Random.

Class RandomSource (R : Type) := {
  randrange : Z -> R -> Z * R;
  random53 : R -> Z * R
}.

Class RandomLaws (R : Type) `{RandomSource R} := {
  randrange_bound : forall n r, (0 < n)%Z -> (0 <= (randrange n r).1 < n)%Z;
  random53_bound : forall r, (0 <= (random53 r).1 < 2 ^ 53)%Z
}.

(** [random.randrange(n)] raises [ValueError] on an empty range. *)
Definition py_randrange `{RandomSource R} (n : Z) (r : R) : outcome (Z * R) :=
  if decide (0 < n)%Z then Returns (randrange n r) else Raises ValueError.

Lemma py_randrange_ok `{RandomLaws R} n r :
  (0 < n)%Z -> exists k r', py_randrange n r = Returns (k, r') /\ (0 <= k < n)%Z.
Proof.
  intros Hn. unfold py_randrange. rewrite decide_True by done.
  pose proof (randrange_bound n r Hn). destruct (randrange n r) as [k r'].
  eauto.
Qed.

Lemma py_randrange_empty `{RandomSource R} n r :
  (n <= 0)%Z -> py_randrange n r = Raises ValueError.
Proof. intros Hn. unfold py_randrange. rewrite decide_False by lia. done. Qed.

(** A generator that replays a script of integers, reduced into range;
    an exhausted script keeps answering 0. *)
Module Scripted.

Definition next (s : list Z) : Z * list Z :=
  match s with
  | [] => (0%Z, [])
  | k :: s' => (k, s')
  end.

#[export] Instance scripted_source : RandomSource (list Z) := {
  randrange n s := let '(k, s') := next s in ((k mod n)%Z, s');
  random53 s := let '(k, s') := next s in ((k mod 2 ^ 53)%Z, s')
}.

#[export] Instance scripted_laws : RandomLaws (list Z).
Proof.
  split.
  - intros n s Hn. simpl. destruct (next s). simpl. apply Z.mod_pos_bound; lia.
  - intros s. simpl. destruct (next s). simpl. apply Z.mod_pos_bound; lia.
Qed.

End Scripted.

End Random.
