(* ===== verification/Body.v ===== *)
(** * Body: the deque [self.snake_body]

    [src/snake.py] keeps the snake in a [collections.deque] of cells,
    tail first and head last.  [__init__] fills it with five cells
    (line 26); [move] reads the head [self.snake_body[-1]] (line 74),
    tests membership with [in] (line 79), appends the new head (lines 80
    and 90) and pops the tail with [popleft] (line 94).  The deque is a
    list here; [popleft] raises [IndexError] on an empty deque as in
    Python.  The file also defines when a body is a connected path on
    the torus, and proves that the operations [move] applies keep it
    so. *)

From S2P Require Import Prelude Grid.
Import Grid.

Module Body.

(** [collections.deque((x, height//2) for x in range(5))] *)
Definition initial_body (height : Z) : list cell :=
  (fun x => (x, height `div` 2)%Z) <$> seqZ 0 5.

(** [self.snake_body.append((x, y))] *)
Definition append (c : cell) (body : list cell) : list cell := body ++ [c].

(** [self.snake_body.popleft()] *)
Definition popleft (body : list cell) : outcome (cell * list cell) :=
  match body with
  | [] => Raises IndexError
  | c :: rest => Returns (c, rest)
  end.

(** Each cell of the body is one step, in some key's direction, from
    the cell before it. *)
Definition adjacentb (w h : Z) (c1 c2 : cell) : bool :=
  existsb (fun b => bool_decide (c2 = next_cell w h c1 (binding2direction b))) all_bindings.

Fixpoint linked (w h : Z) (body : list cell) : bool :=
  match body with
  | c1 :: ((c2 :: _) as rest) => adjacentb w h c1 c2 && linked w h rest
  | _ => true
  end.

(** ** Lemmas *)

Lemma adjacentb_spec w h c1 c2 :
  adjacentb w h c1 c2 = true <-> exists b, c2 = next_cell w h c1 (binding2direction b).
Proof.
  unfold adjacentb. rewrite existsb_exists. split.
  - intros (b & _ & Hb%bool_decide_eq_true). eauto.
  - intros [b Hb]. exists b. split; [apply list_elem_of_In; auto with snake|].
    by apply bool_decide_eq_true.
Qed.

Lemma linked_tail w h c body : linked w h (c :: body) = true -> linked w h body = true.
Proof. destruct body; simpl; [done|]. by intros [_ ?]%andb_prop. Qed.

Lemma linked_tail_list w h body : linked w h body = true -> linked w h (tail body) = true.
Proof. destruct body; [done|]. apply linked_tail. Qed.

Lemma linked_snoc w h body c b :
  linked w h (body ++ [c]) = true ->
  linked w h (body ++ [c; next_cell w h c (binding2direction b)]) = true.
Proof.
  induction body as [|c1 [|c2 body] IH]; simpl.
  - intros _. rewrite andb_true_r. apply adjacentb_spec. eauto.
  - intros [-> _]%andb_prop. simpl. rewrite andb_true_r. apply adjacentb_spec. eauto.
  - intros [-> H]%andb_prop. simpl. by apply IH.
Qed.

Lemma popleft_cons c body : popleft (c :: body) = Returns (c, body).
Proof. reflexivity. Qed.

Lemma length_initial_body h : length (initial_body h) = 5.
Proof. reflexivity. Qed.

Lemma initial_body_in_grid w h c :
  (5 <= w)%Z -> (0 < h)%Z -> c ∈ initial_body h -> in_grid w h c.
Proof.
  intros Hw Hh. unfold initial_body, in_grid.
  rewrite list_elem_of_fmap. intros (x & -> & Hx%elem_of_seqZ). simpl.
  split; [lia|]. split; [apply Z.div_pos; lia|]. apply Z.div_lt; lia.
Qed.

Lemma NoDup_initial_body h : NoDup (initial_body h).
Proof. apply NoDup_fmap_2; [by intros ?? [=]|apply NoDup_seqZ]. Qed.

Lemma linked_initial_body w h : (5 <= w)%Z -> (0 < h)%Z -> linked w h (initial_body h) = true.
Proof.
  intros Hw Hh. simpl. rewrite !andb_true_r.
  assert (Hy : (0 <= h `div` 2 < h)%Z) by (split; [apply Z.div_pos | apply Z.div_lt]; lia).
  repeat (apply andb_true_intro; split); apply adjacentb_spec;
    exists Right; unfold next_cell, wrap; simpl; f_equal; rewrite Z.mod_small; lia.
Qed.

#[export] Hint Resolve linked_snoc linked_tail linked_tail_list NoDup_initial_body : snake.

End Body.
