(* ===== verification/Food.v ===== *)
(** * Food: [SnakeGame.make_food] and its rejection-sampling loop

    [make_food] (src/snake.py, lines 49-56) draws a random cell
    [(random.randrange(self.width), random.randrange(self.height))] and
    draws again while the cell is in [self.snake_body]; the FIXME above
    it says that it never returns when the body fills the grid.

    The loop is modelled twice:
    - [make_food_loop], a [Fixpoint] with fuel that answers [Diverges]
      when the fuel runs out, so that the model computes;
    - [loop_exec], the big-step semantics of the [while] loop, which has
      no derivation for a loop that does not terminate.
    [make_food_loop_refines] shows that the
    two agree: the fuel only ever cuts off executions that [loop_exec]
    does not finish either.  [nth_draw] is the [k]-th cell the generator
    draws; the results state which draw [make_food] returns, that it
    returns as soon as a draw is free, and that it never returns on a
    full board. *)

From S2P Require Import Prelude Grid Random.
Import Grid Random.

Module Food.

Section MakeFood.
Context `{RandomSource R}.
Variables (width height : Z) (snake_body : list cell).

(** [(random.randrange(self.width), random.randrange(self.height))]:
    the x coordinate is drawn first. *)
Definition draw_cell (r : R) : outcome (cell * R) :=
  xr <- py_randrange width r ;;
  yr <- py_randrange height xr.2 ;;
  Returns ((xr.1, yr.1), yr.2).

(** [while food in self.snake_body: food = (...)] *)
Fixpoint make_food_loop (fuel : nat) (food : cell) (r : R) : outcome (cell * R) :=
  if py_in food snake_body then
    match fuel with
    | O => Diverges
    | S fuel' =>
        fr <- draw_cell r ;;
        make_food_loop fuel' fr.1 fr.2
    end
  else Returns (food, r).

Definition make_food (fuel : nat) (r : R) : outcome (cell * R) :=
  fr <- draw_cell r ;;
  make_food_loop fuel fr.1 fr.2.

(** Big-step semantics of the [while] loop. *)
Inductive loop_exec : cell -> R -> outcome (cell * R) -> Prop :=
  | loop_exit food r :
      food ∉ snake_body -> loop_exec food r (Returns (food, r))
  | loop_raise food r e :
      food ∈ snake_body -> draw_cell r = Raises e -> loop_exec food r (Raises e)
  | loop_again food r c r' res :
      food ∈ snake_body -> draw_cell r = Returns (c, r') ->
      loop_exec c r' res -> loop_exec food r res.

(** The [k]-th draw of the generator, counting from 0. *)
Fixpoint nth_draw (k : nat) (r : R) : outcome (cell * R) :=
  match k with
  | O => draw_cell r
  | S k' => fr <- draw_cell r ;; nth_draw k' fr.2
  end.

(** ** Lemmas *)

Lemma draw_cell_ok `{!RandomLaws R} r :
  (0 < width)%Z -> (0 < height)%Z ->
  exists c r', draw_cell r = Returns (c, r') /\ in_grid width height c.
Proof.
  intros Hw Hh. unfold draw_cell.
  destruct (py_randrange_ok width r Hw) as (x & r1 & -> & Hx). simpl.
  destruct (py_randrange_ok height r1 Hh) as (y & r2 & -> & Hy). simpl.
  exists (x, y), r2. split; [done|]. split; simpl; lia.
Qed.

Lemma make_food_loop_S fuel food r :
  make_food_loop (S fuel) food r =
  if py_in food snake_body then (fr <- draw_cell r ;; make_food_loop fuel fr.1 fr.2)
  else Returns (food, r).
Proof. reflexivity. Qed.

Lemma make_food_loop_free fuel food r :
  food ∉ snake_body -> make_food_loop fuel food r = Returns (food, r).
Proof. intros Hf. destruct fuel; simpl; by rewrite (proj2 (py_in_false _ _) Hf). Qed.

Lemma make_food_loop_taken fuel food r :
  food ∈ snake_body ->
  make_food_loop (S fuel) food r = (fr <- draw_cell r ;; make_food_loop fuel fr.1 fr.2).
Proof. intros Hf. simpl. by rewrite (proj2 (py_in_spec _ _) Hf). Qed.

(** More fuel never changes an answer other than [Diverges]. *)
Lemma make_food_loop_mono fuel fuel' food r res :
  fuel <= fuel' -> make_food_loop fuel food r = res -> res <> Diverges ->
  make_food_loop fuel' food r = res.
Proof.
  revert fuel' food r. induction fuel as [|n IH]; intros fuel' food r Hle Hres Hnd.
  - simpl in Hres. destruct (py_in food snake_body) eqn:E; [by subst|].
    subst. apply py_in_false in E. by apply make_food_loop_free.
  - destruct fuel' as [|n']; [lia|].
    rewrite make_food_loop_S in Hres |- *. destruct (py_in food snake_body); [|done].
    destruct (draw_cell r) as [[c r']| |]; simpl in *; [|done..].
    apply IH; [lia|done|done].
Qed.

Lemma make_food_mono fuel fuel' r res :
  fuel <= fuel' -> make_food fuel r = res -> res <> Diverges -> make_food fuel' r = res.
Proof.
  unfold make_food. intros Hle Hres Hnd. destruct (draw_cell r) as [[c r1]| |]; simpl in *; [|done..].
  by apply (make_food_loop_mono fuel).
Qed.

Lemma loop_exec_not_diverges food r res : loop_exec food r res -> res <> Diverges.
Proof. by induction 1. Qed.

Lemma make_food_unfold fuel r :
  make_food fuel r =
  (fr <- draw_cell r ;;
   if py_in fr.1 snake_body then
     match fuel with O => Diverges | S n => make_food n fr.2 end
   else Returns fr).
Proof.
  unfold make_food. destruct (draw_cell r) as [[c r1]| |]; simpl; [|done..].
  destruct fuel; simpl; destruct (py_in c snake_body); done.
Qed.

Lemma nth_draw_in_grid `{!RandomLaws R} k r c r' :
  (0 < width)%Z -> (0 < height)%Z ->
  nth_draw k r = Returns (c, r') -> in_grid width height c.
Proof.
  intros Hw Hh. revert r. induction k as [|k IH]; intros r; simpl;
    destruct (draw_cell_ok r Hw Hh) as (c0 & r1 & -> & Hc0); simpl.
  - by intros [= -> ->].
  - apply IH.
Qed.

(** ** Properties of [make_food] *)

(** The fuelled loop and the [while] loop agree: every answer of
    the fuelled model other than running out of fuel is an execution of
    the loop, and every execution of the loop is computed with enough
    fuel. *)
Theorem make_food_loop_refines food r res :
  loop_exec food r res <-> exists fuel, make_food_loop fuel food r = res /\ res <> Diverges.
Proof.
  split.
  - intros Hex. pose proof (loop_exec_not_diverges _ _ _ Hex) as Hnd.
    cut (exists fuel, make_food_loop fuel food r = res); [intros [n Hn]; eauto|].
    clear Hnd. induction Hex as [food r Hf|food r e Hf Hd|food r c r' res Hf Hd _ [n IH]].
    + exists 0. by apply make_food_loop_free.
    + exists 1. rewrite make_food_loop_taken, Hd by done. done.
    + exists (S n). rewrite make_food_loop_taken, Hd by done. done.
  - intros (fuel & Hrun & Hnd). revert food r Hrun.
    induction fuel as [|n IH]; intros food r Hrun;
      destruct (py_in food snake_body) eqn:E; simpl in Hrun; rewrite E in Hrun;
      try (subst; done); try (apply py_in_false in E; subst; by constructor).
    apply py_in_spec in E.
    destruct (draw_cell r) as [[c r']|e|] eqn:Hd; simpl in Hrun.
    + eapply loop_again; eauto.
    + subst. by apply loop_raise.
    + by subst.
Qed.

(** [make_food] returns the first drawn cell that is not in the
    body: the [k]-th draw, where every earlier draw hit the body. *)
Lemma make_food_first_free_aux fuel r f r' :
  make_food fuel r = Returns (f, r') ->
  exists k, k <= fuel /\ nth_draw k r = Returns (f, r') /\ (f ∉ snake_body) /\
    forall i, i < k -> exists c r'', nth_draw i r = Returns (c, r'') /\ c ∈ snake_body.
Proof.
  revert r. induction fuel as [|n IH]; intros r Hrun; rewrite make_food_unfold in Hrun;
    destruct (draw_cell r) as [[c r1]| |] eqn:Hd; simpl in Hrun; try discriminate;
    destruct (py_in c snake_body) eqn:E; try discriminate.
  - injection Hrun as -> ->. apply py_in_false in E.
    exists 0. split_and!; [lia|done|done|lia].
  - apply IH in Hrun as (k & Hk & Hnth & Hf & Hbefore). apply py_in_spec in E.
    exists (S k). split_and!; [lia|simpl; by rewrite Hd|done|].
    intros [|i] Hi; simpl; rewrite Hd; [by eauto|]. apply Hbefore. lia.
  - injection Hrun as -> ->. apply py_in_false in E.
    exists 0. split_and!; [lia|done|done|lia].
Qed.

(** C6: [make_food] returns the first drawn cell that is not in the
    body: the [k]-th draw, where every earlier draw hit the body. *)
Theorem make_food_first_free fuel r f r' :
  make_food fuel r = Returns (f, r') ->
  exists k, k <= fuel /\ nth_draw k r = Returns (f, r') /\ (f ∉ snake_body) /\
    forall i, i < k -> exists c r'', nth_draw i r = Returns (c, r'') /\ c ∈ snake_body.
Proof. apply make_food_first_free_aux. Qed.

(** the food [make_food] returns is a cell of the grid outside the
    body. *)
Lemma make_food_safe_aux `{!RandomLaws R} fuel r f r' :
  (0 < width)%Z -> (0 < height)%Z ->
  make_food fuel r = Returns (f, r') -> (f ∉ snake_body) /\ in_grid width height f.
Proof.
  intros Hw Hh (k & _ & Hnth & Hf & _)%make_food_first_free_aux.
  split; [done|]. by eapply nth_draw_in_grid.
Qed.

(** C7: the food [make_food] returns is a cell of the grid outside the
    body. *)
Theorem make_food_safe `{!RandomLaws R} fuel r f r' :
  (0 < width)%Z -> (0 < height)%Z ->
  make_food fuel r = Returns (f, r') -> (f ∉ snake_body) /\ in_grid width height f.
Proof. apply make_food_safe_aux. Qed.

Lemma make_food_returns k r c r' :
  nth_draw k r = Returns (c, r') -> c ∉ snake_body ->
  exists f r'', make_food k r = Returns (f, r'').
Proof.
  revert r. induction k as [|k IH]; intros r; rewrite make_food_unfold; simpl;
    destruct (draw_cell r) as [[c0 r1]| |] eqn:Hd; simpl; try done.
  - intros [= -> ->] Hc. rewrite (proj2 (py_in_false _ _) Hc). eauto.
  - intros Hnth Hc. destruct (py_in c0 snake_body); eauto.
Qed.

(** C9: on a board the body fills, [make_food] never returns: the
    fuelled model runs out of fuel whatever the fuel, and the [while]
    loop has no execution from any cell of the grid. *)
Theorem make_food_full_board `{!RandomLaws R} :
  (0 < width)%Z -> (0 < height)%Z ->
  (forall c, in_grid width height c -> c ∈ snake_body) ->
  (forall fuel r, make_food fuel r = Diverges) /\
  (forall c r res, in_grid width height c -> ~ loop_exec c r res).
Proof.
  intros Hw Hh Hfull. split.
  - intros fuel. induction fuel as [|n IH]; intros r; rewrite make_food_unfold;
      destruct (draw_cell_ok r Hw Hh) as (c & r1 & -> & Hc); simpl;
      by rewrite (proj2 (py_in_spec _ _) (Hfull c Hc)).
  - intros c r res Hc Hex. induction Hex as [food r Hf|food r e _ Hd|food r c' r' res _ Hd _ IH].
    + by apply Hf, Hfull.
    + destruct (draw_cell_ok r Hw Hh) as (? & ? & Hd' & _). congruence.
    + apply IH. destruct (draw_cell_ok r Hw Hh) as (? & ? & Hd' & Hin).
      rewrite Hd in Hd'. by injection Hd' as -> ->.
Qed.

(** C8: [make_food] returns as soon as the generator draws a free
    cell: if the [k]-th draw is free, [k] iterations suffice. *)
Theorem make_food_terminates k r c r' :
  nth_draw k r = Returns (c, r') -> c ∉ snake_body ->
  exists f r'', make_food k r = Returns (f, r'').
Proof. apply make_food_returns. Qed.

Lemma make_food_no_raise `{!RandomLaws R} fuel r e :
  (0 < width)%Z -> (0 < height)%Z -> make_food fuel r <> Raises e.
Proof.
  intros Hw Hh. revert r. induction fuel as [|n IH]; intros r; rewrite make_food_unfold;
    destruct (draw_cell_ok r Hw Hh) as (c & r1 & -> & _); simpl;
    destruct (py_in c snake_body); done || apply IH.
Qed.

End MakeFood.

#[export] Hint Constructors loop_exec : snake.

(** ** Witnesses

    A 3x1 grid whose first two cells hold the body: the scripted
    generator draws (0, 0), (1, 0) and then the free cell (2, 0). *)

Import Random.Scripted.

Definition demo_body : list cell := [(0, 0); (1, 0)]%Z.
Definition demo_script : list Z := [0; 0; 1; 0; 2; 0]%Z.

Lemma make_food_first_free_witness :
  exists k, k <= 5 /\ nth_draw 3 1 k demo_script = Returns ((2, 0)%Z, []) /\
    ((2, 0)%Z ∉ demo_body) /\
    forall i, i < k -> exists c r'', nth_draw 3 1 i demo_script = Returns (c, r'') /\ c ∈ demo_body.
Proof. apply (make_food_first_free 3 1 demo_body 5 demo_script). reflexivity. Defined.

Lemma make_food_safe_witness : ((2, 0)%Z ∉ demo_body) /\ in_grid 3 1 (2, 0)%Z.
Proof. apply (make_food_safe 3 1 demo_body 5 demo_script _ []); [lia|lia|reflexivity]. Defined.

Lemma make_food_terminates_witness :
  exists f r'', make_food 3 1 demo_body 2 demo_script = Returns (f, r'').
Proof.
  apply (make_food_terminates 3 1 demo_body 2 demo_script (2, 0)%Z []);
    [reflexivity|eval_decide].
Defined.

Lemma make_food_full_board_witness :
  (forall fuel (r : list Z), make_food 2 1 demo_body fuel r = Diverges) /\
  (forall c (r : list Z) res, in_grid 2 1 c -> ~ loop_exec 2 1 demo_body c r res).
Proof.
  apply (make_food_full_board 2 1 demo_body); [lia|lia|].
  intros [x y] [Hx Hy]; simpl in *.
  assert (y = 0%Z) as -> by lia. assert (x = 0 \/ x = 1)%Z as [-> | ->] by lia; eval_decide.
Defined.

End Food.
