(* ===== verification/Render.v ===== *)
(** * Render: the Tk widgets the game draws on

    [__init__] (src/snake.py, lines 31-44) creates a canvas of
    [width * scale] by [height * scale] pixels and one rectangle per
    cell, in the order of its two nested loops, recording the item of
    each cell in the dict [self.item_ids].  [refresh] (lines 101-110)
    writes ["Score: " + str(len(self.snake_body))] into the status bar
    and, for every entry of [self.item_ids], configures the fill of the
    rectangle: red for the food cell, black for a body cell, white
    otherwise.  [move] adds the text ["Game Over :("] at the centre of
    the canvas on a collision (lines 84-87).

    The widgets are modelled by what the game writes into them: the
    canvas size, the coordinates of each cell's rectangle (the dict
    [item_ids] with the rectangle it names), the fill of each
    rectangle, the status text, and the texts drawn on the canvas with
    their position and options.  The results: the rectangles tile the
    canvas, every pixel lying in the rectangle of exactly one cell
    ([rectangles_tile]); and the counting lemmas behind
    [Scheduler.reachable_render_counts]: on a layout of [grid_cells],
    [refresh] paints every cell with its [cell_color]
    ([refresh_screen_grid]), and the number of cells of a colour is the
    size of the set of cells [cell_color] gives it ([count_fill_fmap],
    [count_colors], [filter_length_NoDup]).  Tk's item numbers, the packing of the
    widgets and the pixels Tk draws are not modelled. *)

From stdpp Require Import strings pretty.
From S2P Require Import Prelude Grid.
Import Grid.

Module Render.

(** A fill colour of a rectangle; [Unfilled] is the empty fill Tk gives
    a rectangle created without one. *)
Inductive color := Red | Black | White | Unfilled.

#[export] Instance color_eq_dec : EqDecision color.
Proof. solve_decision. Defined.

(** [(x_start, y_start, x_end, y_end)] of a canvas rectangle. *)
Abbreviation coords := (Z * Z * Z * Z)%type.

(** Lines 42-43: the rectangle of cell [(x, y)]. *)
Definition cell_coords (scale : Z) (xy : cell) : coords :=
  (xy.1 * scale, xy.2 * scale, (xy.1 + 1) * scale, (xy.2 + 1) * scale)%Z.

(** [self.canvas.create_text(x, y, text=..., font=..., fill=...,
    justify=...)] *)
Record canvas_text := mkText {
  text_x : Z;
  text_y : Z;
  text_body : string;
  text_font : string;
  text_fill : color;
  text_justify : string
}.

Record screen := mkScreen {
  canvas_size : Z * Z;
  statusbar_text : string;
  rects : list (cell * coords);
  fills : list (cell * color);
  canvas_texts : list canvas_text
}.

(** Lines 40-44, the inner loop: the rectangles of column [x], each
    stored in [self.item_ids] under its cell. *)
Fixpoint create_column (scale x : Z) (ys : list Z) (items : list (cell * coords)) :=
  match ys with
  | [] => items
  | y :: ys' => create_column scale x ys' (items ++ [((x, y), cell_coords scale (x, y))])
  end.

(** Line 39, the outer loop over the columns. *)
Fixpoint create_rectangles (scale : Z) (xs ys : list Z) (items : list (cell * coords)) :=
  match xs with
  | [] => items
  | x :: xs' => create_rectangles scale xs' ys (create_column scale x ys items)
  end.

(** The widgets [__init__] builds (lines 31-44): the canvas of
    [width * scale] by [height * scale] pixels, an empty status bar, one
    unfilled rectangle per cell and no text. *)
Definition initial_screen (width height scale : Z) : screen :=
  let items := create_rectangles scale (seqZ 0 width) (seqZ 0 height) [] in
  mkScreen (width * scale, height * scale)%Z "" items
    ((fun it => (it.1, Unfilled)) <$> items) [].

(** The colour chosen by the [if]/[elif]/[else] of [refresh]. *)
Definition cell_color (snake_body : list cell) (food : cell) (coords : cell) : color :=
  if decide (coords = food) then Red
  else if py_in coords snake_body then Black
  else White.

(** [str(n)] of a non-negative Python [int]: its decimal digits. *)
Definition py_str_nat (n : nat) : string := pretty (N.of_nat n).

(** [self.statusbar['text'] = "Score: " + str(len(self.snake_body))] *)
Definition status_text (len : nat) : string := "Score: " +:+ py_str_nat len.

(** [refresh]: the status text, then one [itemconfig] per entry of
    [self.item_ids]. *)
Definition refresh_screen (snake_body : list cell) (food : cell) (s : screen) : screen :=
  mkScreen (canvas_size s) (status_text (length snake_body)) (rects s)
    ((fun it => (it.1, cell_color snake_body food it.1)) <$> rects s)
    (canvas_texts s).

(** Lines 84-87: the text drawn when the game ends. *)
Definition game_over_item (width height scale : Z) : canvas_text :=
  mkText ((width * scale) `div` 2) ((height * scale) `div` 2)
    "Game Over :(" "TkDefaultFont 50" Red "center".

Definition draw_game_over (width height scale : Z) (s : screen) : screen :=
  mkScreen (canvas_size s) (statusbar_text s) (rects s) (fills s)
    (canvas_texts s ++ [game_over_item width height scale]).

(** A pixel lies in a rectangle (its left and top edges included). *)
Definition rect_contains (r : coords) (p : Z * Z) : Prop :=
  (r.1.1.1 <= p.1 < r.1.2 /\ r.1.1.2 <= p.2 < r.2)%Z.

(** The number of rectangles filled with colour [col]. *)
Definition count_fill (col : color) (fs : list (cell * color)) : nat :=
  length (filter (fun it => it.2 = col) fs).

(** ** Lemmas *)

(** On the rectangles of the grid, [refresh] gives every grid cell the
    colour [cell_color] chooses for it. *)
Lemma refresh_screen_grid w h scale body food s :
  rects s = (fun c => (c, cell_coords scale c)) <$> grid_cells w h ->
  fills (refresh_screen body food s) =
    (fun c => (c, cell_color body food c)) <$> grid_cells w h.
Proof. intros Hr. simpl. rewrite Hr, <-list_fmap_compose. reflexivity. Qed.

Lemma count_fill_fmap (f : cell -> color) (l : list cell) col :
  count_fill col ((fun c => (c, f c)) <$> l) = length (filter (fun c => f c = col) l).
Proof.
  induction l as [|c l IH]; [done|]. unfold count_fill in *. rewrite fmap_cons, !filter_cons.
  simpl. case_decide; simpl; by rewrite IH.
Qed.

(** [cell_color] never leaves a rectangle unfilled, so the red, black and
    white rectangles are all of them. *)
Lemma count_colors (f : cell -> color) (l : list cell) :
  (forall c, f c <> Unfilled) ->
  length l = length (filter (fun c => f c = Red) l) + length (filter (fun c => f c = Black) l) +
             length (filter (fun c => f c = White) l).
Proof.
  intros Hf. induction l as [|c l IH]; [done|]. rewrite !filter_cons.
  specialize (Hf c). repeat case_decide; simpl; (lia || (destruct (f c); congruence)).
Qed.

Lemma cell_color_not_unfilled body food c : cell_color body food c <> Unfilled.
Proof. unfold cell_color. repeat case_match; done. Qed.

Lemma cell_color_black body food c : cell_color body food c = Black <-> c <> food /\ c ∈ body.
Proof.
  unfold cell_color. rewrite <-py_in_spec.
  case_decide; [|destruct (py_in c body)]; intuition congruence.
Qed.

Lemma cell_color_red body food c : cell_color body food c = Red <-> c = food.
Proof. unfold cell_color. case_decide; [|destruct (py_in c body)]; intuition congruence. Qed.

(** The cells a filter keeps from a duplicate-free list, counted by a
    duplicate-free list with the same elements. *)
Lemma filter_length_NoDup (P : cell -> Prop) `{forall c, Decision (P c)} (l k : list cell) :
  NoDup l -> NoDup k -> (forall c, c ∈ k <-> P c /\ c ∈ l) -> length (filter P l) = length k.
Proof.
  intros Hl Hk Hiff. apply Permutation_length, NoDup_Permutation; [by apply NoDup_filter|done|].
  intros c. rewrite list_elem_of_filter, Hiff. done.
Qed.

Lemma create_column_app scale x ys items :
  create_column scale x ys items =
  items ++ ((fun y => ((x, y), cell_coords scale (x, y))) <$> ys).
Proof.
  revert items. induction ys as [|y ys IH]; intros items; simpl; [by rewrite app_nil_r|].
  by rewrite IH, <-app_assoc.
Qed.

Lemma create_rectangles_app scale xs ys items :
  create_rectangles scale xs ys items =
  items ++ ((fun c => (c, cell_coords scale c)) <$> list_prod xs ys).
Proof.
  revert items. induction xs as [|x xs IH]; intros items; simpl; [by rewrite app_nil_r|].
  rewrite IH, create_column_app, <-app_assoc, fmap_app. do 2 f_equal.
  rewrite <-list_fmap_compose. induction ys; simpl; [done|]. by f_equal.
Qed.

Lemma div_cell_iff x s p :
  (0 < s)%Z -> (x * s <= p < (x + 1) * s <-> x = p `div` s)%Z.
Proof.
  intros Hs. split.
  - intros [H1 H2]. apply Z.le_antisymm.
    + apply Z.div_le_lower_bound; lia.
    + apply Z.lt_succ_r, Z.div_lt_upper_bound; lia.
  - intros ->. pose proof (Z.mul_div_le p s Hs). pose proof (Z.mul_succ_div_gt p s Hs). lia.
Qed.

(** C23: with a positive [scale] the rectangles tile the canvas: a
    pixel of the [width * scale] by [height * scale] canvas lies in the
    rectangle of a grid cell exactly when the cell is
    [(px // scale, py // scale)], which is a grid cell. *)
Theorem rectangles_tile w h scale px py :
  (0 < scale)%Z -> (0 <= px < w * scale)%Z -> (0 <= py < h * scale)%Z ->
  in_grid w h (px `div` scale, py `div` scale)%Z /\
  forall c, c ∈ grid_cells w h ->
    (rect_contains (cell_coords scale c) (px, py) <-> c = (px `div` scale, py `div` scale)%Z).
Proof.
  intros Hs Hpx Hpy. split.
  - unfold in_grid; simpl. split_and!.
    + apply Z.div_pos; lia.
    + apply Z.div_lt_upper_bound; lia.
    + apply Z.div_pos; lia.
    + apply Z.div_lt_upper_bound; lia.
  - intros [x y] _. unfold rect_contains, cell_coords; simpl.
    rewrite (div_cell_iff x scale px), (div_cell_iff y scale py) by done.
    split; [intros [-> ->]; done|intros [= -> ->]; done].
Qed.

Lemma rectangles_tile_witness :
  in_grid 15 10 (95 `div` 40, 130 `div` 40)%Z /\
  forall c, c ∈ grid_cells 15 10 ->
    (rect_contains (cell_coords 40 c) (95, 130)%Z <-> c = (95 `div` 40, 130 `div` 40)%Z).
Proof. apply rectangles_tile; lia. Defined.

End Render.
