(* ===== verification/Game.v ===== *)
(** * Game: the state of [SnakeGame] and its handlers

    The attributes of a [SnakeGame] object (src/snake.py, lines 17-110)
    become the record [game]; the handlers become functions from a
    state to an [outcome] of a state:
    - [init] is [__init__] (lines 19-47) without the widget creation;
    - [move] is [move] (lines 70-99), with its three exits: the
      [game_over] guard, the collision branch, and the normal branch
      that eats or pops the tail, refreshes the canvas and, on the timer
      path, arms the next timer with [canvas.after];
    - [on_key] is [on_key] (lines 58-68).
    The pending [canvas.after] callbacks are the list [pending] of their
    delays: each one is a call [self.move(True)] still to come.
    [make_food] runs with at most [food_fuel] redraws; when they run
    out, [move] answers [Diverges], which is what the [while] loop does
    on a full board. *)

From S2P Require Import Prelude PyFloat Grid Random Body Food Render.
Import PyFloat Grid Random Body Food Render.

Module Game.

Section Game.
Context `{RandomSource R}.
Variable food_fuel : nat.

Record game := mkGame {
  width : Z;
  height : Z;
  scale : Z;
  snake_body : list cell;
  previous_direction : direction;
  next_direction : direction;
  game_over : bool;
  food : cell;
  rng : R;
  screen : Render.screen;
  pending : list Z
}.

Definition set_snake_body (b : list cell) (st : game) : game :=
  mkGame (width st) (height st) (scale st) b (previous_direction st) (next_direction st)
    (game_over st) (food st) (rng st) (screen st) (pending st).
Definition set_previous_direction (d : direction) (st : game) : game :=
  mkGame (width st) (height st) (scale st) (snake_body st) d (next_direction st)
    (game_over st) (food st) (rng st) (screen st) (pending st).
Definition set_next_direction (d : direction) (st : game) : game :=
  mkGame (width st) (height st) (scale st) (snake_body st) (previous_direction st) d
    (game_over st) (food st) (rng st) (screen st) (pending st).
Definition set_game_over (b : bool) (st : game) : game :=
  mkGame (width st) (height st) (scale st) (snake_body st) (previous_direction st)
    (next_direction st) b (food st) (rng st) (screen st) (pending st).
Definition set_food (f : cell) (r : R) (st : game) : game :=
  mkGame (width st) (height st) (scale st) (snake_body st) (previous_direction st)
    (next_direction st) (game_over st) f r (screen st) (pending st).
Definition set_screen (s : Render.screen) (st : game) : game :=
  mkGame (width st) (height st) (scale st) (snake_body st) (previous_direction st)
    (next_direction st) (game_over st) (food st) (rng st) s (pending st).
Definition set_pending (p : list Z) (r : R) (st : game) : game :=
  mkGame (width st) (height st) (scale st) (snake_body st) (previous_direction st)
    (next_direction st) (game_over st) (food st) r (screen st) p.

(** [self.refresh()] *)
Definition refresh (st : game) : game :=
  set_screen (refresh_screen (snake_body st) (food st) (screen st)) st.

(** [self.food = self.make_food()] *)
Definition game_make_food (st : game) : outcome (cell * R) :=
  make_food (width st) (height st) (snake_body st) food_fuel (rng st).

(** Lines 79-88: the new head is already in the body. *)
Definition collide (xy : cell) (st : game) : game :=
  let st := refresh (set_snake_body (append xy (snake_body st)) st) in
  let st := set_game_over true st in
  set_screen (draw_game_over (width st) (height st) (scale st) (screen st)) st.

(** Lines 91-94, after the new head was appended. *)
Definition eat_or_pop (xy : cell) (st : game) : outcome game :=
  if decide (food st = xy) then
    fr <- game_make_food st ;;
    Returns (set_food fr.1 fr.2 st)
  else
    tr <- popleft (snake_body st) ;;
    Returns (set_snake_body tr.2 st).

(** Lines 97-99: on the timer path, arm the next timer. *)
Definition arm_timer (schedule_again : bool) (st : game) : outcome game :=
  if schedule_again then
    let kr := random53 (rng st) in
    ms <- sleeptime kr.1 (length (snake_body st)) ;;
    Returns (set_pending (pending st ++ [ms]) kr.2 st)
  else Returns st.

Definition move (schedule_again : bool) (st : game) : outcome game :=
  if game_over st then Returns st else
  last <- py_last (snake_body st) ;;
  let d := next_direction st in
  let st := set_previous_direction d st in
  xy <- wrap_step (width st) (height st) last d ;;
  if py_in xy (snake_body st) then Returns (collide xy st)
  else
    st <- eat_or_pop xy (set_snake_body (append xy (snake_body st)) st) ;;
    arm_timer schedule_again (refresh st).

Definition on_key (b : binding) (st : game) : outcome game :=
  if game_over st then Returns st else
  let new_direction := binding2direction b in
  let opposite := opposite (previous_direction st) in
  if decide (new_direction <> opposite) then
    move false (set_next_direction new_direction st)
  else Returns st.

(** [__init__]: the body, the directions, the first food, the canvas,
    then [self.move(schedule_again=True)] and [self.refresh()]. *)
Definition init (width height scale : Z) (r : R) : outcome game :=
  let body := initial_body height in
  let up := binding2direction Up in
  fr <- make_food width height body food_fuel r ;;
  let st := mkGame width height scale body up up false fr.1 fr.2
    (initial_screen width height scale) [] in
  st <- move true st ;;
  Returns (refresh st).

(** The engine's part of the state: what [refresh], the generator and
    the timers do not touch. *)
Definition core (st : game) :=
  (width st, height st, snake_body st, previous_direction st, next_direction st,
   game_over st, food st).

(** The cell [move] computes for the new head. *)
Definition next_head (st : game) (hd : cell) : cell :=
  next_cell (width st) (height st) hd (next_direction st).

(** ** The invariant of a running game *)

Record body_ok (st : game) : Prop := {
  ok_width : (0 < width st)%Z;
  ok_height : (0 < height st)%Z;
  ok_nonempty : snake_body st <> [];
  ok_nodup : NoDup (snake_body st);
  ok_in_grid : Forall (in_grid (width st) (height st)) (snake_body st);
  ok_food_free : food st ∉ snake_body st;
  ok_food_in_grid : in_grid (width st) (height st) (food st);
  ok_dir_key : exists b, next_direction st = binding2direction b;
  ok_linked : linked (width st) (height st) (snake_body st) = true
}.

(** What every [move] establishes: the two directions agree, and the
    head is one step from the neck in [previous_direction]. *)
Definition neck_ok (st : game) : Prop :=
  forall pre n hd, snake_body st = pre ++ [n; hd] ->
    hd = next_cell (width st) (height st) n (previous_direction st).

Definition moved_ok (st : game) : Prop :=
  previous_direction st = next_direction st /\ neck_ok st.

(** ** Lemmas on the blocks of [move] *)

Lemma refresh_core st : core (refresh st) = core st.
Proof. reflexivity. Qed.

Lemma move_running_eq s st pre hd :
  width st <> 0%Z -> height st <> 0%Z -> game_over st = false ->
  snake_body st = pre ++ [hd] ->
  move s st =
    let st1 := set_previous_direction (next_direction st) st in
    let xy := next_head st hd in
    if py_in xy (snake_body st) then Returns (collide xy st1)
    else
      st2 <- eat_or_pop xy (set_snake_body (append xy (snake_body st)) st1) ;;
      arm_timer s (refresh st2).
Proof.
  intros Hw Hh Hover Hbody. unfold move. rewrite Hover.
  replace (py_last (snake_body st)) with (Returns hd) by (rewrite Hbody; symmetry; apply py_last_snoc).
  simpl. rewrite wrap_step_wrap by done. reflexivity.
Qed.

Lemma eat_or_pop_cases xy st st' :
  eat_or_pop xy st = Returns st' ->
  (food st = xy /\ exists f r, game_make_food st = Returns (f, r) /\ st' = set_food f r st) \/
  (food st <> xy /\ snake_body st <> [] /\ st' = set_snake_body (tail (snake_body st)) st).
Proof.
  unfold eat_or_pop. case_decide as E.
  - intros Hrun. inv_outcome. subst. left. destruct a as [f r]. eauto 10.
  - destruct (snake_body st) as [|c b] eqn:Hb; simpl; [done|].
    intros [= <-]. right. by split_and!.
Qed.

Lemma arm_timer_core s st st' :
  arm_timer s st = Returns st' ->
  core st' = core st /\ exists ms, pending st' = pending st ++ (if s then [ms] else []).
Proof.
  unfold arm_timer. destruct s.
  - intros Hrun. inv_outcome. subst. split; [done|]. eauto.
  - intros [= <-]. split; [done|]. exists 0%Z. by rewrite app_nil_r.
Qed.

Lemma arm_timer_returns `{!RandomLaws R} s st :
  (0 < Z.of_nat (length (snake_body st)) < 2 ^ 53)%Z -> exists st', arm_timer s st = Returns st'.
Proof.
  intros Hlen. unfold arm_timer. destruct s; [|eauto].
  destruct (sleeptime_bound (random53 (rng st)).1 (length (snake_body st)))
    as (d & -> & _); [apply random53_bound|done|]. simpl. eauto.
Qed.

(** The timer [arm_timer] adds: one delay in [[0, 1000 / len)] on the
    timer path, none on the key path. *)
Lemma arm_timer_bound `{!RandomLaws R} s st st' :
  (0 < Z.of_nat (length (snake_body st)) < 2 ^ 53)%Z -> arm_timer s st = Returns st' ->
  exists ms, pending st' = pending st ++ (if s then [ms] else []) /\
    (0 <= ms)%Z /\ (ms * Z.of_nat (length (snake_body st)) < 1000)%Z.
Proof.
  intros Hlen Harm. unfold arm_timer in Harm. destruct s; [|injection Harm as <-].
  - destruct (sleeptime_bound (random53 (rng st)).1 (length (snake_body st)))
      as (d & Hd & Hd0 & Hd1); [apply random53_bound|done|].
    rewrite Hd in Harm. injection Harm as <-. by exists d.
  - exists 0%Z. rewrite app_nil_r. split_and!; [done|lia|lia].
Qed.

Lemma tail_snoc {A} (l : list A) x : l <> [] -> tail (l ++ [x]) = tail l ++ [x].
Proof. by destruct l. Qed.

(** [move] on a running game, once the outcome of its blocks is known. *)
Lemma move_running_cases s st pre hd st' :
  body_ok st -> game_over st = false -> snake_body st = pre ++ [hd] ->
  move s st = Returns st' ->
  let nh := next_head st hd in
  let st1 := set_previous_direction (next_direction st) st in
  (nh ∈ snake_body st /\ st' = collide nh st1) \/
  ((nh ∉ snake_body st) /\ exists a,
     eat_or_pop nh (set_snake_body (snake_body st ++ [nh]) st1) = Returns a /\
     arm_timer s (refresh a) = Returns st').
Proof.
  intros Hok Hover Hbody Hrun nh st1.
  pose proof (ok_width _ Hok). pose proof (ok_height _ Hok).
  rewrite (move_running_eq s st pre hd) in Hrun by (done || lia).
  simpl in Hrun. fold nh in Hrun. destruct (py_in nh (snake_body st)) eqn:E.
  - injection Hrun as <-. left. by apply py_in_spec in E.
  - inv_outcome. right. apply py_in_false in E. eauto.
Qed.

(** the behaviour of one [move] on a running game, on every branch:
    the pending direction becomes the previous one; a new head inside
    the body is appended and ends the game; otherwise the game goes on
    and the new head is appended, with a new food outside the body when
    it lands on the food, and with the tail popped when it does not. *)
Lemma move_spec_aux s st pre hd st' :
  body_ok st -> game_over st = false -> snake_body st = pre ++ [hd] ->
  move s st = Returns st' ->
  let nh := next_head st hd in
  previous_direction st' = next_direction st /\ next_direction st' = next_direction st /\
  width st' = width st /\ height st' = height st /\
  (nh ∈ snake_body st ->
     game_over st' = true /\ snake_body st' = snake_body st ++ [nh] /\ food st' = food st) /\
  (nh ∉ snake_body st -> game_over st' = false /\
     (food st = nh -> snake_body st' = snake_body st ++ [nh] /\ food st' ∉ snake_body st') /\
     (food st <> nh -> snake_body st' = tail (snake_body st) ++ [nh] /\ food st' = food st)).
Proof.
  intros Hok Hover Hbody Hrun. cbv zeta.
  destruct (move_running_cases s st pre hd st' Hok Hover Hbody Hrun)
    as [[Hin ->]|[Hnin (a & Ha & Harm)]].
  - split_and!; try done; intros; by exfalso.
  - apply arm_timer_core in Harm as [Hcore _].
    unfold core in Hcore; simpl in Hcore. injection Hcore as -> -> -> -> -> -> ->.
    apply eat_or_pop_cases in Ha as [(Hf & f & r & Hmk & ->)|(Hf & _ & ->)]; simpl in *.
    + unfold game_make_food in Hmk; simpl in Hmk.
      apply make_food_first_free_aux in Hmk as (k & _ & _ & Hfree & _).
      split_and!; try done; intros; by exfalso.
    + rewrite tail_snoc by apply (ok_nonempty _ Hok).
      split_and!; try done; intros; by exfalso.
Qed.

(** C1: the behaviour of one [move] on a running game, on every branch:
    the pending direction becomes the previous one; a new head inside
    the body is appended and ends the game; otherwise the game goes on
    and the new head is appended, with a new food outside the body when
    it lands on the food, and with the tail popped when it does not. *)
Theorem move_spec s st pre hd st' :
  body_ok st -> game_over st = false -> snake_body st = pre ++ [hd] ->
  move s st = Returns st' ->
  let nh := next_head st hd in
  previous_direction st' = next_direction st /\ next_direction st' = next_direction st /\
  width st' = width st /\ height st' = height st /\
  (nh ∈ snake_body st ->
     game_over st' = true /\ snake_body st' = snake_body st ++ [nh] /\ food st' = food st) /\
  (nh ∉ snake_body st -> game_over st' = false /\
     (food st = nh -> snake_body st' = snake_body st ++ [nh] /\ food st' ∉ snake_body st') /\
     (food st <> nh -> snake_body st' = tail (snake_body st) ++ [nh] /\ food st' = food st)).
Proof. apply move_spec_aux. Qed.

(** The body extended by a free new head is still a duplicate-free
    path of grid cells. *)
Lemma extend_ok st pre hd :
  body_ok st -> snake_body st = pre ++ [hd] -> next_head st hd ∉ snake_body st ->
  let body' := snake_body st ++ [next_head st hd] in
  NoDup body' /\ Forall (in_grid (width st) (height st)) body' /\
  linked (width st) (height st) body' = true.
Proof.
  intros Hok Hbody Hnin. split_and!.
  - apply NoDup_snoc; [apply Hok|done].
  - apply Forall_app; split; [apply Hok|]. apply Forall_singleton.
    apply step_in_grid; apply Hok.
  - destruct (ok_dir_key _ Hok) as [b Hb]. unfold next_head. rewrite Hb, Hbody, <-app_assoc.
    apply linked_snoc. rewrite <-Hbody. apply Hok.
Qed.

Lemma neck_snoc (l pre0 pre : list cell) hd x n y :
  l = pre0 ++ [hd] -> l ++ [x] = pre ++ [n; y] -> n = hd /\ y = x.
Proof.
  intros -> [-> Hl]%snoc_eq_pair. by apply app_inj_tail in Hl as [_ ->].
Qed.

Lemma neck_tail_snoc (l pre0 pre : list cell) hd x n y :
  l = pre0 ++ [hd] -> tail l ++ [x] = pre ++ [n; y] -> n = hd /\ y = x.
Proof.
  intros Hl [-> Ht]%snoc_eq_pair. split; [|done].
  destruct l as [|c l']; [by destruct pre0|]. simpl in Ht. subst l'.
  rewrite app_comm_cons in Hl. by apply app_inj_tail in Hl as [_ ->].
Qed.

Lemma move_food_in_grid `{!RandomLaws R} s st st' :
  body_ok st -> game_over st = false -> move s st = Returns st' ->
  in_grid (width st') (height st') (food st').
Proof.
  intros Hok Hover Hrun. destruct (exists_last (ok_nonempty _ Hok)) as (pre & hd & Hbody).
  destruct (move_running_cases s st pre hd st' Hok Hover Hbody Hrun)
    as [[_ ->]|[_ (a & Ha & Harm)]]; [apply Hok|].
  apply arm_timer_core in Harm as [Hcore _].
  unfold core in Hcore; simpl in Hcore. injection Hcore as -> -> _ _ _ _ ->.
  apply eat_or_pop_cases in Ha as [(_ & f & r & Hmk & ->)|(_ & _ & ->)]; simpl; [|apply Hok].
  unfold game_make_food in Hmk; simpl in Hmk.
  by destruct (make_food_safe_aux _ _ _ _ _ _ _ (ok_width _ Hok) (ok_height _ Hok) Hmk).
Qed.

(** a [move] that does not end the game keeps the invariant of a
    running game, and establishes that the two directions agree and
    that the head is one step from the neck in [previous_direction]. *)
Lemma move_preserves_aux `{!RandomLaws R} s st st' :
  body_ok st -> game_over st = false -> move s st = Returns st' -> game_over st' = false ->
  body_ok st' /\ moved_ok st'.
Proof.
  intros Hok Hover Hrun Hover'.
  pose proof (move_food_in_grid s st st' Hok Hover Hrun) as Hfood.
  destruct (exists_last (ok_nonempty _ Hok)) as (pre & hd & Hbody).
  destruct (move_spec_aux s st pre hd st' Hok Hover Hbody Hrun)
    as (Hprev & Hnext & Hw & Hh & Hcol & Hgo).
  destruct (decide (next_head st hd ∈ snake_body st)) as [Hin|Hnin].
  { destruct (Hcol Hin) as [? _]. congruence. }
  destruct (Hgo Hnin) as (_ & Heat & Hpop).
  destruct (extend_ok st pre hd Hok Hbody Hnin) as (Hnd & Hgrid & Hlink).
  destruct (ok_dir_key _ Hok) as [b Hb].
  rewrite Hw, Hh in Hfood.
  destruct (decide (food st = next_head st hd)) as [Hf|Hf].
  - destruct (Heat Hf) as [Hb' Hfree].
    rewrite Hb' in Hfree.
    split; [constructor; rewrite ?Hw, ?Hh, ?Hb', ?Hnext; eauto using ok_width, ok_height|].
    { by destruct (snake_body st). }
    split; [congruence|]. intros pre' n y Hb2. rewrite Hb' in Hb2.
    destruct (neck_snoc _ _ _ _ _ _ _ Hbody Hb2) as [-> ->].
    unfold next_head. by rewrite Hw, Hh, Hprev.
  - destruct (Hpop Hf) as [Hb' Hfood'].
    rewrite <-tail_snoc in Hb' by apply Hok.
    split; [constructor; rewrite ?Hw, ?Hh, ?Hb', ?Hnext, ?Hfood';
      eauto using ok_width, ok_height with snake|].
    + rewrite tail_snoc by apply Hok. by destruct (tail (snake_body st)).
    + rewrite tail_snoc, elem_of_snoc by apply Hok. intros [?%elem_of_tail|?]; [|done].
      by apply (ok_food_free _ Hok).
    + by rewrite <-Hfood'.
    + split; [congruence|]. intros pre' n y Hb2. rewrite Hb', tail_snoc in Hb2 by apply Hok.
      destruct (neck_tail_snoc _ _ _ _ _ _ _ Hbody Hb2) as [-> ->].
      unfold next_head. by rewrite Hw, Hh, Hprev.
Qed.

(** C2: a [move] that does not end the game keeps the invariant of a
    running game, and establishes that the two directions agree and
    that the head is one step from the neck in [previous_direction]. *)
Theorem move_preserves `{!RandomLaws R} s st st' :
  body_ok st -> game_over st = false -> move s st = Returns st' -> game_over st' = false ->
  body_ok st' /\ moved_ok st'.
Proof. apply move_preserves_aux. Qed.

Lemma neck_ok_intro st pre n hd :
  snake_body st = pre ++ [n; hd] ->
  hd = next_cell (width st) (height st) n (previous_direction st) -> neck_ok st.
Proof.
  intros Hb Hs pre' n' hd' Hb'. rewrite Hb in Hb'.
  replace (pre ++ [n; hd]) with ((pre ++ [n]) ++ [hd]) in Hb' by by rewrite <-app_assoc.
  apply snoc_eq_pair in Hb' as [-> Hb']. by apply app_inj_tail in Hb' as [_ ->].
Qed.

(** ** [on_key] *)

Lemma on_key_cases b st st' :
  on_key b st = Returns st' ->
  st' = st \/
  (game_over st = false /\ binding2direction b <> opposite (previous_direction st) /\
   move false (set_next_direction (binding2direction b) st) = Returns st').
Proof.
  unfold on_key. destruct (game_over st) eqn:E; [intros [= <-]; by left|].
  case_decide; [|intros [= <-]; by left]. intros; by right.
Qed.

Lemma body_ok_set_next b st : body_ok st -> body_ok (set_next_direction (binding2direction b) st).
Proof. intros []. constructor; simpl; eauto. Qed.

(** a key press keeps the invariant of a running game. *)
Lemma on_key_preserves_aux `{!RandomLaws R} b st st' :
  body_ok st -> moved_ok st -> on_key b st = Returns st' -> game_over st' = false ->
  body_ok st' /\ moved_ok st'.
Proof.
  intros Hok Hmoved Hrun Hover'.
  destruct (on_key_cases b st st' Hrun) as [->|(Hover & _ & Hmove)]; [done|].
  exact (move_preserves_aux false _ _ (body_ok_set_next b st Hok) Hover Hmove Hover').
Qed.

(** C13: a key press keeps the invariant of a running game. *)
Theorem on_key_preserves `{!RandomLaws R} b st st' :
  body_ok st -> moved_ok st -> on_key b st = Returns st' -> game_over st' = false ->
  body_ok st' /\ moved_ok st'.
Proof. apply on_key_preserves_aux. Qed.

(** Every way [move] can return from a running game ends the body with
    the new head. *)
Lemma move_last s st pre hd st' :
  body_ok st -> game_over st = false -> snake_body st = pre ++ [hd] ->
  move s st = Returns st' -> last (snake_body st') = Some (next_head st hd).
Proof.
  intros Hok Hover Hbody Hrun.
  destruct (move_spec_aux s st pre hd st' Hok Hover Hbody Hrun) as (_ & _ & _ & _ & Hcol & Hgo).
  destruct (decide (next_head st hd ∈ snake_body st)) as [Hin|Hnin].
  - destruct (Hcol Hin) as (_ & -> & _). apply last_snoc.
  - destruct (Hgo Hnin) as (_ & Heat & Hpop).
    destruct (decide (food st = next_head st hd)) as [Hf|Hf].
    + destruct (Heat Hf) as [-> _]. apply last_snoc.
    + destruct (Hpop Hf) as [-> _]. apply last_snoc.
Qed.

(** C5: on a grid at least 3 by 3, no key press moves the head onto the
    neck, the cell just behind the head: a key opposite to the last
    move is ignored, and every other key leads elsewhere. *)
Theorem on_key_no_neck_bite b st st' pre n hd :
  (2 < width st)%Z -> (2 < height st)%Z ->
  body_ok st -> moved_ok st -> game_over st = false ->
  snake_body st = pre ++ [n; hd] ->
  on_key b st = Returns st' -> last (snake_body st') <> Some n.
Proof.
  intros Hw Hh Hok [Hdir Hneck] Hover Hbody Hrun.
  destruct (on_key_cases b st st' Hrun) as [->|(_ & Hnotopp & Hmove)].
  - rewrite Hbody. replace (pre ++ [n; hd]) with ((pre ++ [n]) ++ [hd]) by by rewrite <-app_assoc.
    rewrite last_snoc. intros [= ->]. pose proof (ok_nodup _ Hok) as Hnd.
    rewrite Hbody in Hnd. apply NoDup_app in Hnd as (_ & _ & Hnd). apply NoDup_cons in Hnd as [Hn _]. apply Hn, list_elem_of_singleton. done.
  - assert (Hbody' : snake_body (set_next_direction (binding2direction b) st) = (pre ++ [n]) ++ [hd])
      by (simpl; by rewrite <-app_assoc).
    rewrite (move_last _ _ _ _ _ (body_ok_set_next b st Hok) Hover Hbody' Hmove).
    intros [= Hback]. apply Hnotopp.
    destruct (ok_dir_key _ Hok) as [b0 Hb0]. rewrite Hdir, Hb0.
    apply (wrap_back_opposite (width st) (height st) n); [done|done| |].
    + pose proof (ok_in_grid _ Hok) as Hg. rewrite Hbody, Forall_app, Forall_cons in Hg. apply Hg.
    + rewrite <-Hb0, <-Hdir. unfold next_head in Hback. simpl in Hback.
      rewrite (Hneck pre n hd Hbody) in Hback. exact Hback.
Qed.

(** The invariants only read the engine's part of the state. *)
Lemma body_ok_core st st' : core st' = core st -> body_ok st -> body_ok st'.
Proof.
  unfold core. intros Hc []. injection Hc as Hw Hh Hb Hp Hn Ho Hf.
  constructor; rewrite ?Hw, ?Hh, ?Hb, ?Hn, ?Hf; done.
Qed.

Lemma moved_ok_core st st' : core st' = core st -> moved_ok st -> moved_ok st'.
Proof.
  unfold core, moved_ok, neck_ok. intros Hc. injection Hc as Hw Hh Hb Hp Hn Ho Hf.
  by rewrite Hw, Hh, Hb, Hp, Hn.
Qed.

Lemma move_game_over s st st' : game_over st = true -> move s st = Returns st' -> st' = st.
Proof. unfold move. intros ->. by intros [= <-]. Qed.

Lemma move_dims s st st' :
  move s st = Returns st' -> width st' = width st /\ height st' = height st.
Proof.
  unfold move. destruct (game_over st); [by intros [= <-]|]. intros Hrun. inv_outcome.
  destruct (py_in _ _); [by injection Hrun as <-|]. inv_outcome.
  apply arm_timer_core in Hrun as [Hc _]. unfold core in Hc; simpl in Hc.
  injection Hc as -> -> _ _ _ _ _.
  match goal with H : eat_or_pop _ _ = Returns _ |- _ =>
    by apply eat_or_pop_cases in H as [(_ & f & r & _ & ->)|(_ & _ & ->)] end.
Qed.

(** C10: A running game with the invariant never raises in [move]: the body
    is not empty, the grid sizes are not zero, [make_food] draws in a
    non-empty range, and the delay divides by a length that is not zero
    (for a body of fewer than [2^52] cells, whose length converts to a
    double exactly). *)
Theorem move_no_raise `{!RandomLaws R} s st e :
  body_ok st -> (Z.of_nat (length (snake_body st)) < 2 ^ 52)%Z -> move s st <> Raises e.
Proof.
  intros Hok Hlen. destruct (game_over st) eqn:Hover; [unfold move; by rewrite Hover|].
  destruct (exists_last (ok_nonempty _ Hok)) as (pre & hd & Hbody).
  pose proof (ok_width _ Hok). pose proof (ok_height _ Hok).
  rewrite (move_running_eq s st pre hd) by (done || lia). simpl.
  destruct (py_in _ _); [done|].
  set (st1 := set_snake_body _ _).
  assert (Hne : snake_body st1 <> []) by (simpl; by destruct (snake_body st)).
  destruct (eat_or_pop _ st1) as [a|e'|] eqn:Hep; simpl; [| |done].
  - assert (Hla : (0 < length (snake_body a) <= S (length (snake_body st)))%nat).
    { apply eat_or_pop_cases in Hep as [(_ & f & r & _ & ->)|(_ & _ & ->)]; simpl;
        unfold append.
      - rewrite length_app. simpl. lia.
      - rewrite tail_snoc by apply Hok. rewrite length_app. simpl.
        destruct (snake_body st) eqn:Eb; [destruct pre; discriminate|]. simpl. lia. }
    destruct (arm_timer_returns s (refresh a)) as [st' ->]; [simpl; lia|done].
  - unfold eat_or_pop in Hep. case_decide.
    + destruct (game_make_food st1) as [[f r]|e''|] eqn:Hmk; simpl in Hep; try done.
      injection Hep as ->. unfold game_make_food in Hmk.
      exfalso. exact (make_food_no_raise _ _ _ _ _ _ (ok_width _ Hok) (ok_height _ Hok) Hmk).
    + by destruct (snake_body st1).
Qed.

(** C27: a [move] returns whenever the generator is fair enough: if
    one of the first [food_fuel + 1] cells it draws after the new head
    is appended lies outside the body, the [while] loop of [make_food]
    ends within the fuel, nothing raises, and [move] returns a state.
    With no free cell left it never returns ([Food.make_food_full_board]). *)
Theorem move_returns `{!RandomLaws R} s st pre hd k c r' :
  body_ok st -> snake_body st = pre ++ [hd] ->
  (Z.of_nat (length (snake_body st)) < 2 ^ 52)%Z -> k <= food_fuel ->
  nth_draw (width st) (height st) k (rng st) = Returns (c, r') ->
  c ∉ snake_body st ++ [next_head st hd] ->
  exists st', move s st = Returns st'.
Proof.
  intros Hok Hbody Hlen Hk Hdraw Hfree.
  destruct (game_over st) eqn:Hover; [exists st; unfold move; by rewrite Hover|].
  pose proof (ok_width _ Hok). pose proof (ok_height _ Hok).
  rewrite (move_running_eq s st pre hd) by (done || lia). cbv zeta.
  destruct (py_in _ _); [eauto|].
  assert (Hep : exists a, eat_or_pop (next_head st hd)
             (set_snake_body (append (next_head st hd) (snake_body st))
                (set_previous_direction (next_direction st) st)) = Returns a /\
           (0 < Z.of_nat (length (snake_body a)) < 2 ^ 53)%Z).
  { unfold eat_or_pop, append. case_decide.
    - destruct (make_food_returns _ _ _ k (rng st) c r' Hdraw Hfree) as (f & r'' & Hmk).
      unfold game_make_food. simpl. rewrite (make_food_mono _ _ _ k food_fuel _ _ Hk Hmk) by done.
      eexists. split; [reflexivity|]. simpl. rewrite length_app. simpl. lia.
    - simpl. rewrite Hbody. destruct pre as [|c0 pre]; simpl; eexists; (split; [reflexivity|]);
        simpl; rewrite Hbody in Hlen; rewrite ?length_app in *; simpl in *; lia. }
  destruct Hep as (a & -> & Hla). simpl.
  destruct (arm_timer_returns s (refresh a)) as [st' ->]; [simpl; lia|eauto].
Qed.

(** ** [__init__] *)

(** C28: [__init__] on a grid with no cell raises [ValueError]: the
    first [make_food] calls [random.randrange] on an empty range, the
    width first, before any widget is created or any move is made. *)
Theorem init_empty_grid w h sc r :
  (w <= 0 \/ h <= 0)%Z -> init w h sc r = Raises ValueError.
Proof.
  intros Hwh. unfold init, make_food, draw_cell.
  destruct (decide (0 < w)%Z) as [Hw|Hw].
  - unfold py_randrange at 1. rewrite decide_True by done. simpl.
    by rewrite py_randrange_empty by lia.
  - by rewrite py_randrange_empty by lia.
Qed.

Lemma initial_state_ok w h sc f r scr :
  (5 <= w)%Z -> (0 < h)%Z -> f ∉ initial_body h -> in_grid w h f ->
  let up := binding2direction Up in
  body_ok (mkGame w h sc (initial_body h) up up false f r scr []).
Proof.
  intros Hw Hh Hfree Hfg up. constructor; simpl; try done; try lia.
  - apply NoDup_initial_body.
  - apply Forall_forall. intros c Hc. apply initial_body_in_grid; [lia|lia|done].
  - by exists Up.
  - apply linked_initial_body; lia.
Qed.

(** C14: Scenario 1 and 2 of the specification: on the 15x10 grid of
    [main], the game [__init__] builds is running, has moved up once,
    and its body is the five cells of row 5 with the tail popped and
    the head (4, 4) appended, or all six cells when (4, 4) was the
    food. *)
Theorem init_15_10 `{!RandomLaws R} r st :
  init 15 10 40 r = Returns st ->
  game_over st = false /\ previous_direction st = binding2direction Up /\
  (snake_body st = [(1, 5); (2, 5); (3, 5); (4, 5); (4, 4)] \/
   snake_body st = [(0, 5); (1, 5); (2, 5); (3, 5); (4, 5); (4, 4)])%Z.
Proof.
  intros Hinit. unfold init in Hinit. inv_outcome. destruct a as [f r1]. simpl in *.
  destruct (make_food_safe_aux 15 10 _ _ _ _ _ ltac:(lia) ltac:(lia) Ha) as [Hfree Hfg].
  pose proof (initial_state_ok 15 10 40 f r1 (initial_screen 15 10 40) ltac:(lia) ltac:(lia)
    Hfree Hfg)
    as Hok.
  subst st. simpl.
  destruct (move_spec_aux true _ [(0, 5); (1, 5); (2, 5); (3, 5)]%Z (4, 5)%Z _ Hok eq_refl eq_refl Ha0)
    as (Hprev & _ & _ & _ & _ & Hgo).
  change (next_head _ (4, 5)%Z) with (4, 4)%Z in Hgo. simpl in Hgo.
  destruct Hgo as (Hover & Heat & Hpop); [by apply (bool_decide_unpack _)|].
  split_and!; [done|done|].
  destruct (decide (f = (4, 4)%Z)) as [Hf|Hf].
  - right. by destruct (Heat Hf) as [-> _].
  - left. by destruct (Hpop Hf) as [-> _].
Qed.

(** ** The screen shows the state *)

(** The canvas has the size and the rectangles [__init__] gave it, the
    status bar shows the length of the body, every rectangle has the
    colour [refresh] gives it for the current body and food, and the
    canvas carries the game-over text exactly when the game is over. *)
Definition layout_ok (st : game) : Prop :=
  canvas_size (screen st) = (width st * scale st, height st * scale st)%Z /\
  rects (screen st) =
    (fun c => (c, cell_coords (scale st) c)) <$> grid_cells (width st) (height st).

Definition screen_ok (st : game) : Prop :=
  layout_ok st /\
  statusbar_text (screen st) = status_text (length (snake_body st)) /\
  fills (screen st) = fills (refresh_screen (snake_body st) (food st) (screen st)) /\
  canvas_texts (screen st) =
    if game_over st then [game_over_item (width st) (height st) (scale st)] else [].

Lemma refresh_screen_ok st :
  layout_ok st ->
  canvas_texts (screen st) =
    (if game_over st then [game_over_item (width st) (height st) (scale st)] else []) ->
  screen_ok (refresh st).
Proof. intros Hl Htexts. split_and!; [exact Hl|done|done|exact Htexts]. Qed.

Lemma arm_timer_screen s st st' :
  arm_timer s st = Returns st' -> screen st' = screen st /\ scale st' = scale st.
Proof.
  unfold arm_timer. destruct s; [|by intros [= <-]]. intros Hrun. inv_outcome. by subst.
Qed.

Lemma move_screen_ok s st st' :
  game_over st = false -> layout_ok st -> canvas_texts (screen st) = [] ->
  move s st = Returns st' -> screen_ok st'.
Proof.
  intros Hover [Hl1 Hl2] Htexts. unfold move. rewrite Hover. intros Hrun. inv_outcome.
  destruct (py_in _ _).
  { injection Hrun as <-. split_and!; [by split|done|done|simpl; by rewrite Htexts]. }
  inv_outcome. rename Hrun into Harm.
  match goal with H : eat_or_pop _ _ = Returns _ |- _ => rename H into Hep end.
  pose proof (arm_timer_core _ _ _ Harm) as [Hcore _].
  apply arm_timer_screen in Harm as [Hscr Hsc].
  unfold core in Hcore; simpl in Hcore. injection Hcore as Hw Hh Hb _ _ Ho Hf.
  unfold screen_ok, layout_ok. rewrite Hscr, Hsc, Hw, Hh, Hb, Ho, Hf.
  apply eat_or_pop_cases in Hep as [(_ & f & r & _ & ->)|(_ & _ & ->)];
    simpl; rewrite Hover; split_and!; done.
Qed.

(** ** Timers *)

(** What [move] does to the pending timers: the timer path arms one
    more unless the game ended, the key path arms none. *)
Lemma move_pending s st st' :
  body_ok st -> game_over st = false -> move s st = Returns st' ->
  if game_over st' then pending st' = pending st
  else exists ms, pending st' = pending st ++ (if s then [ms] else []).
Proof.
  intros Hok Hover Hrun. destruct (exists_last (ok_nonempty _ Hok)) as (pre & hd & Hbody).
  destruct (move_running_cases s st pre hd st' Hok Hover Hbody Hrun)
    as [[_ ->]|[_ (a & Ha & Harm)]]; [done|].
  apply arm_timer_core in Harm as [Hcore Hpend].
  unfold core in Hcore; simpl in Hcore. injection Hcore as _ _ _ _ _ Hover' _.
  rewrite Hover'. simpl in Hpend.
  apply eat_or_pop_cases in Ha as [(_ & f & r & _ & ->)|(_ & _ & ->)];
    simpl in *; by rewrite Hover.
Qed.

(** What [move] does to the timers of a running game, with the delay
    it arms: the length it divides by is the one after the new head was
    appended and the tail popped or kept. *)
Lemma move_timer_aux `{!RandomLaws R} s st st' :
  body_ok st -> game_over st = false -> (Z.of_nat (length (snake_body st)) < 2 ^ 52)%Z ->
  move s st = Returns st' ->
  if game_over st' then pending st' = pending st
  else exists ms, pending st' = pending st ++ (if s then [ms] else []) /\
    (0 <= ms)%Z /\ (ms * Z.of_nat (length (snake_body st')) < 1000)%Z.
Proof.
  intros Hok Hover Hlen Hrun. destruct (exists_last (ok_nonempty _ Hok)) as (pre & hd & Hbody).
  destruct (move_running_cases s st pre hd st' Hok Hover Hbody Hrun)
    as [[_ ->]|[_ (a & Ha & Harm)]]; [done|].
  pose proof (arm_timer_core _ _ _ Harm) as [Hcore _].
  unfold core in Hcore; simpl in Hcore. injection Hcore as _ _ Hb' _ _ Ho' _.
  assert (Ha' : (0 < Z.of_nat (length (snake_body a)) < 2 ^ 53)%Z /\
                pending a = pending st /\ game_over a = false).
  { apply eat_or_pop_cases in Ha as [(_ & f & r & _ & ->)|(_ & _ & ->)]; simpl;
      (split; [|split; done]); rewrite ?tail_snoc, length_app by apply Hok; simpl; [lia|].
    rewrite Hbody in Hlen |- *. destruct pre; simpl in *; rewrite ?length_app in *; simpl in *; lia. }
  destruct Ha' as (Hla & Hpa & Hoa).
  destruct (arm_timer_bound s (refresh a) st' Hla Harm) as (ms & Hp & Hms0 & Hms1).
  rewrite Ho', Hoa. exists ms. rewrite Hp, Hb'. simpl. by rewrite Hpa.
Qed.

(** C11: a [move] of a running game on the timer path arms exactly one
    [canvas.after] timer when the game goes on, with a whole number of
    milliseconds in [[0, 1000 / len(self.snake_body))] computed with
    Python's doubles from the body after the move (the new head
    appended, the tail popped unless it ate), and arms none when the
    move ends the game. *)
Theorem move_timer_delay `{!RandomLaws R} st st' :
  body_ok st -> game_over st = false -> (Z.of_nat (length (snake_body st)) < 2 ^ 52)%Z ->
  move true st = Returns st' ->
  (game_over st' = true /\ pending st' = pending st) \/
  (game_over st' = false /\ exists ms, pending st' = pending st ++ [ms] /\
     (0 <= ms)%Z /\ (ms * Z.of_nat (length (snake_body st')) < 1000)%Z).
Proof.
  intros Hok Hover Hlen Hrun. pose proof (move_timer_aux true st st' Hok Hover Hlen Hrun) as Ht.
  destruct (game_over st'); [by left|by right].
Qed.

End Game.

(** ** Witnesses

    The game of [main] (15x10) driven by the scripted generator:
    [demo_start] is the state [__init__] builds before its first
    [move], [demo_init] the state it returns, [demo_left] the state
    after the Left key, [demo_over] the state after Left then Down,
    which runs the head into the body. *)

Import Random.Scripted.

Definition demo_fuel : nat := 10.

Definition run_or (o : outcome (game (R:=list Z))) (d : game) : game :=
  match o with Returns st => st | _ => d end.

Definition demo_start : game (R:=list Z) :=
  mkGame 15 10 40 (initial_body 10) (0, -1)%Z (0, -1)%Z false (7, 3)%Z [123456789%Z]
    (initial_screen 15 10 40) [].

Definition demo_init : game :=
  Eval vm_compute in run_or (init demo_fuel 15 10 40 [7; 3; 123456789]%Z) demo_start.
Definition demo_moved : game :=
  Eval vm_compute in run_or (move demo_fuel true demo_start) demo_start.
Definition demo_left : game :=
  Eval vm_compute in run_or (on_key demo_fuel Left demo_init) demo_init.
Definition demo_over : game :=
  Eval vm_compute in run_or (on_key demo_fuel Down demo_left) demo_left.

Ltac solve_body_ok b :=
  constructor; [simpl; lia|simpl; lia|discriminate|eval_decide|eval_decide|eval_decide|
                eval_decide|exists b; reflexivity|reflexivity].

Lemma demo_init_moved_ok : moved_ok demo_init.
Proof.
  split; [reflexivity|].
  apply (neck_ok_intro _ [(1, 5); (2, 5); (3, 5)]%Z (4, 5)%Z (4, 4)%Z); reflexivity.
Qed.

Lemma move_spec_witness :
  let nh := next_head demo_start (4, 5)%Z in
  previous_direction demo_moved = next_direction demo_start /\
  next_direction demo_moved = next_direction demo_start /\
  width demo_moved = width demo_start /\ height demo_moved = height demo_start /\
  (nh ∈ snake_body demo_start ->
     game_over demo_moved = true /\ snake_body demo_moved = snake_body demo_start ++ [nh] /\
     food demo_moved = food demo_start) /\
  (nh ∉ snake_body demo_start -> game_over demo_moved = false /\
     (food demo_start = nh -> snake_body demo_moved = snake_body demo_start ++ [nh] /\
        food demo_moved ∉ snake_body demo_moved) /\
     (food demo_start <> nh -> snake_body demo_moved = tail (snake_body demo_start) ++ [nh] /\
        food demo_moved = food demo_start)).
Proof.
  apply (move_spec demo_fuel true demo_start [(0, 5); (1, 5); (2, 5); (3, 5)]%Z (4, 5)%Z);
    [solve_body_ok Up|reflexivity|reflexivity|reflexivity].
Defined.

Lemma move_preserves_witness : body_ok demo_moved /\ moved_ok demo_moved.
Proof.
  apply (move_preserves demo_fuel true demo_start demo_moved);
    [solve_body_ok Up|reflexivity|reflexivity|reflexivity].
Defined.

Lemma on_key_preserves_witness : body_ok demo_left /\ moved_ok demo_left.
Proof.
  apply (on_key_preserves demo_fuel Left demo_init demo_left);
    [solve_body_ok Up|exact demo_init_moved_ok|reflexivity|reflexivity].
Defined.

Lemma on_key_no_neck_bite_witness : last (snake_body demo_left) <> Some (4, 5)%Z.
Proof.
  apply (on_key_no_neck_bite demo_fuel Left demo_init demo_left [(1, 5); (2, 5); (3, 5)]%Z
    (4, 5)%Z (4, 4)%Z);
    [simpl; lia|simpl; lia|solve_body_ok Up|exact demo_init_moved_ok|reflexivity|
     reflexivity|reflexivity].
Defined.

Lemma move_no_raise_witness : move demo_fuel true demo_start <> Raises ValueError.
Proof.
  apply (move_no_raise demo_fuel true demo_start ValueError); [solve_body_ok Up|reflexivity].
Defined.

Lemma move_returns_witness : exists st', move demo_fuel true demo_start = Returns st'.
Proof.
  apply (move_returns demo_fuel true demo_start [(0, 5); (1, 5); (2, 5); (3, 5)]%Z (4, 5)%Z 0
    (9, 0)%Z []); [solve_body_ok Up|reflexivity|simpl; lia|lia|reflexivity|].
  apply (bool_decide_unpack _). vm_compute. exact I.
Defined.

Lemma init_empty_grid_witness : init demo_fuel 15 0 40 [7; 3]%Z = Raises ValueError.
Proof. apply init_empty_grid. lia. Defined.

Lemma init_15_10_witness :
  game_over demo_init = false /\ previous_direction demo_init = binding2direction Up /\
  (snake_body demo_init = [(1, 5); (2, 5); (3, 5); (4, 5); (4, 4)] \/
   snake_body demo_init = [(0, 5); (1, 5); (2, 5); (3, 5); (4, 5); (4, 4)])%Z.
Proof. apply (init_15_10 demo_fuel [7; 3; 123456789]%Z). reflexivity. Defined.

Lemma move_timer_delay_witness :
  (game_over demo_moved = true /\ pending demo_moved = pending demo_start) \/
  (game_over demo_moved = false /\ exists ms, pending demo_moved = pending demo_start ++ [ms] /\
     (0 <= ms)%Z /\ (ms * Z.of_nat (length (snake_body demo_moved)) < 1000)%Z).
Proof.
  apply (move_timer_delay demo_fuel); [solve_body_ok Up|reflexivity|simpl; lia|vm_compute; reflexivity].
Defined.

(** ** Counterexamples behind the findings *)

(** On a grid 2 wide, a running game that satisfies the invariant ends
    when the player presses the key of the current direction: the head
    wraps onto the neck.  [on_key_no_neck_bite] needs a 3x3 grid. *)
Definition narrow_state : game (R:=list Z) :=
  mkGame 2 3 40 [(0, 0); (1, 0)]%Z (1, 0)%Z (1, 0)%Z false (0, 2)%Z []
    (initial_screen 2 3 40) [].

Example width2_straight_bites_neck :
  body_ok narrow_state /\ moved_ok narrow_state /\
  game_over (run_or (on_key demo_fuel Right narrow_state) narrow_state) = true.
Proof.
  split_and!; [solve_body_ok Right|split|reflexivity]; [reflexivity|].
  apply (neck_ok_intro _ [] (0, 0)%Z (1, 0)%Z); reflexivity.
Qed.

(** [__init__] places the five initial cells at x = 0..4 whatever the
    width: on a grid 3 wide two of them lie outside the grid. *)
Example initial_body_outside_narrow_grid : ~ Forall (in_grid 3 5) (initial_body 5).
Proof. eval_decide. Qed.

(** The collision test of [move] runs before [popleft]: moving into the
    cell the tail is about to leave ends the game. *)
Definition loop_state : game (R:=list Z) :=
  mkGame 3 3 40 [(0, 0); (1, 0); (1, 1); (0, 1)]%Z (-1, 0)%Z (-1, 0)%Z false (2, 2)%Z []
    (initial_screen 3 3 40) [].

Example tail_chase_ends_game :
  body_ok loop_state /\ moved_ok loop_state /\
  game_over (run_or (on_key demo_fuel Up loop_state) loop_state) = true.
Proof.
  split_and!; [solve_body_ok Left|split|reflexivity]; [reflexivity|].
  apply (neck_ok_intro _ [(0, 0); (1, 0)]%Z (1, 1)%Z (0, 1)%Z); reflexivity.
Qed.


End Game.
