(* ===== verification/Scheduler.v ===== *)
(** * Scheduler: the Tk event loop and the timer chain

    [main] (src/snake.py, lines 113-121) binds the four arrow keys to
    [on_key] and runs [root.mainloop()].  The loop delivers, one at a
    time, key presses and the [canvas.after] callbacks that [move]
    armed (line 99), each of which runs [self.move(True)].  The loop is
    the relation [step] on game states: a key press runs [on_key]; a
    timer that fires leaves the queue [pending] and runs [move] on the
    timer path.  Any pending timer may fire next, which covers every
    order Tk may choose.  [reachable] states are those of a game built
    by [__init__] and driven by any sequence of events.  Along every run
    the loop invariant [loop_inv] holds (a well-formed body, free food
    on the grid, equal directions, one timer chain while running), a
    finished game never changes, the widgets show the state, and the
    canvas shows the score that the status bar prints. *)

From S2P Require Import Prelude Grid Random Body Food Render Game.
Import Grid Random Body Food Render Game.

Module Scheduler.

Section EventLoop.
Context `{RandomSource R}.
Variable food_fuel : nat.

Inductive step : game -> game -> Prop :=
  | step_key b st st' :
      on_key food_fuel b st = Returns st' -> step st st'
  | step_timer i ms st st' :
      pending st !! i = Some ms ->
      move food_fuel true (set_pending (delete i (pending st)) (rng st) st) = Returns st' ->
      step st st'.

Definition reachable (width height : Z) (st : game) : Prop :=
  exists scale r st0, init food_fuel width height scale r = Returns st0 /\ rtc step st0 st.

(** The invariant of the loop: a running game satisfies the invariant
    of [Game] and has exactly one timer pending; a finished game has at
    most one, which does nothing when it fires. *)
Definition loop_inv (st : game (R:=R)) : Prop :=
  if game_over st then length (pending st) <= 1
  else body_ok st /\ moved_ok st /\ length (pending st) = 1.

Lemma init_inv `{!RandomLaws R} w h sc r st :
  (5 <= w)%Z -> (0 < h)%Z -> init food_fuel w h sc r = Returns st -> loop_inv st.
Proof.
  intros Hw Hh Hinit. unfold init in Hinit. inv_outcome. destruct a as [f r1]. simpl in *.
  assert (Hw0 : (0 < w)%Z) by lia.
  destruct (make_food_safe_aux _ _ _ _ _ _ _ Hw0 Hh Ha) as [Hfree Hfg].
  pose proof (initial_state_ok w h sc f r1 (initial_screen w h sc) Hw Hh Hfree Hfg) as Hok.
  subst st. unfold loop_inv. simpl.
  pose proof (move_pending _ _ _ _ Hok eq_refl Ha0) as Hpend.
  destruct (game_over a0) eqn:Ho.
  - rewrite Hpend. simpl. lia.
  - destruct (move_preserves_aux _ _ _ _ Hok eq_refl Ha0 Ho) as [Hok' Hmv'].
    destruct Hpend as [ms Hpend]. rewrite Hpend.
    split_and!; [apply (body_ok_core a0); [reflexivity|exact Hok']|
                 apply (moved_ok_core a0); [reflexivity|exact Hmv']|done].
Qed.

Lemma step_inv `{!RandomLaws R} st st' : loop_inv st -> step st st' -> loop_inv st'.
Proof.
  unfold loop_inv. intros Hinv Hstep. revert Hinv.
  destruct Hstep as [b st1 st1' Hkey|i ms st1 st1' Hi Hmove]; intros Hinv.
  - destruct (on_key_cases _ _ _ _ Hkey) as [->|(Hover & _ & Hmove)]; [done|].
    rewrite Hover in Hinv. destruct Hinv as (Hok & Hmv & Hlen).
    pose proof (move_pending _ _ _ _ (body_ok_set_next _ _ Hok) Hover Hmove) as Hpend.
    destruct (game_over st1') eqn:Ho.
    + rewrite Hpend. simpl. lia.
    + destruct (on_key_preserves_aux _ _ _ _ Hok Hmv Hkey Ho) as [Hok' Hmv'].
      destruct Hpend as [ms Hpend]. rewrite Hpend, app_nil_r. simpl. by split_and!.
  - assert (Hdel : length (delete i (pending st1)) = length (pending st1) - 1).
    { apply length_delete. by exists ms. }
    destruct (game_over st1) eqn:Hover.
    + apply move_game_over in Hmove; [|done]. subst st1'. simpl. rewrite Hover. lia.
    + destruct Hinv as (Hok & Hmv & Hlen).
      assert (Hok1 : body_ok (set_pending (delete i (pending st1)) (rng st1) st1))
        by (eapply body_ok_core; [|exact Hok]; done).
      pose proof (move_pending _ _ _ _ Hok1 Hover Hmove) as Hpend. simpl in Hpend.
      destruct (game_over st1') eqn:Ho.
      * rewrite Hpend. lia.
      * destruct (move_preserves_aux _ _ _ _ Hok1 Hover Hmove Ho) as [Hok' Hmv'].
        destruct Hpend as [ms' Hpend]. rewrite Hpend, length_app. simpl. split_and!; [done|done|lia].
Qed.

Lemma step_dims st st' : step st st' -> width st' = width st /\ height st' = height st.
Proof.
  intros [b x y Hkey|i ms x y Hi Hmove].
  - destruct (on_key_cases _ _ _ _ Hkey) as [->|(_ & _ & Hmove)]; [done|].
    by apply move_dims in Hmove.
  - by apply move_dims in Hmove.
Qed.

Lemma reachable_dims w h st : reachable w h st -> width st = w /\ height st = h.
Proof.
  intros (sc & r & st0 & Hinit & Hsteps).
  assert (Hd0 : width st0 = w /\ height st0 = h).
  { unfold init in Hinit. inv_outcome. subst st0. by apply move_dims in Ha0. }
  clear Hinit. revert Hd0. induction Hsteps as [|x y z Hxy _ IH]; intros Hd0; [done|].
  apply IH. destruct (step_dims x y Hxy) as [-> ->]. done.
Qed.

(** every state of a game built on a grid at least 5 wide, driven
    by any sequence of key presses and timer callbacks, satisfies the
    loop invariant. *)
Lemma reachable_loop_inv_aux `{!RandomLaws R} w h st :
  (5 <= w)%Z -> (0 < h)%Z -> reachable w h st -> loop_inv st.
Proof.
  intros Hw Hh (sc & r & st0 & Hinit & Hsteps).
  pose proof (init_inv w h sc r st0 Hw Hh Hinit) as Hinv.
  clear Hinit. revert Hinv. induction Hsteps as [|x y z Hxy _ IH]; intros Hinv; [done|].
  apply IH. by apply (step_inv x y).
Qed.

(** C3: every state of a game built on a grid at least 5 wide, driven
    by any sequence of key presses and timer callbacks, satisfies the
    loop invariant: while the game runs, the body is a non-empty,
    duplicate-free path of grid cells, the food is a grid cell outside
    it, [previous_direction] equals [next_direction] and exactly one
    [canvas.after] callback is pending; once it is over, at most one
    callback is pending. *)
Theorem reachable_loop_inv `{!RandomLaws R} w h st :
  (5 <= w)%Z -> (0 < h)%Z -> reachable w h st -> loop_inv st.
Proof. apply reachable_loop_inv_aux. Qed.

(** C4: a finished game stays finished: whatever keys and timers come
    later, the body and the food never change. *)
Theorem game_over_final st st' :
  game_over st = true -> rtc step st st' ->
  game_over st' = true /\ snake_body st' = snake_body st /\ food st' = food st.
Proof.
  intros Hover Hsteps. induction Hsteps as [|x y z Hxy _ IH]; [done|].
  assert (Hy : game_over y = true /\ snake_body y = snake_body x /\ food y = food x).
  { destruct Hxy as [b x y Hkey|i ms x y Hi Hmove].
    - unfold on_key in Hkey. rewrite Hover in Hkey. by injection Hkey as <-.
    - apply move_game_over in Hmove; [|done]. by subst y. }
  destruct Hy as (Hy & Hb & Hf). destruct (IH Hy) as (? & ? & ?). split_and!; congruence.
Qed.

Lemma screen_ok_step st st' : screen_ok st -> step st st' -> screen_ok st'.
Proof.
  intros Hscr Hstep. destruct Hstep as [b x y Hkey|i ms x y Hi Hmove].
  - destruct (on_key_cases _ _ _ _ Hkey) as [->|(Hover & _ & Hmove)]; [done|].
    destruct Hscr as (Hl & _ & _ & Htexts). rewrite Hover in Htexts.
    exact (move_screen_ok _ _ (set_next_direction (binding2direction b) x) _ Hover Hl Htexts
             Hmove).
  - destruct (game_over x) eqn:Hover.
    + apply move_game_over in Hmove; [by subst y|done].
    + destruct Hscr as (Hl & _ & _ & Htexts). rewrite Hover in Htexts.
      exact (move_screen_ok _ _ (set_pending (delete i (pending x)) (rng x) x) _
               Hover Hl Htexts Hmove).
Qed.

(** The widgets show the state along every run from [__init__]. *)
Lemma screen_ok_reachable w h st : reachable w h st -> screen_ok st.
Proof.
  intros (sc & r & st0 & Hinit & Hsteps).
  assert (Hok0 : screen_ok st0).
  { unfold init in Hinit. inv_outcome. subst st0.
    apply move_screen_ok in Ha0 as (Hl & _ & _ & Htexts);
      [|done|split; [done|simpl; by rewrite create_rectangles_app]|done].
    by apply refresh_screen_ok. }
  clear Hinit. induction Hsteps as [|x y z Hxy _ IH]; [done|].
  apply IH. by apply (screen_ok_step x y).
Qed.

(** C17: in every reachable state the widgets show the state: the
    canvas keeps the size and the rectangles [__init__] gave it, the
    status bar reads ["Score: "] and the length of the body, each
    rectangle has the colour of its cell, and the text ["Game Over :("]
    is at the centre of the canvas, once, exactly when the game is
    over. *)
Theorem reachable_screen_ok w h st : reachable w h st -> screen_ok st.
Proof. apply screen_ok_reachable. Qed.


End EventLoop.

(** ** Witnesses: the game of [main] after [__init__] and the Left key,
    and after Left then Down, which ends it; then the Up key and the
    last timer change nothing. *)

Import Random.Scripted.

Lemma demo_init_loop_inv : loop_inv demo_init.
Proof.
  unfold loop_inv. simpl. split_and!; [solve_body_ok Up|exact demo_init_moved_ok|reflexivity].
Qed.

Lemma demo_left_reachable : reachable demo_fuel 15 10 demo_left.
Proof.
  exists 40%Z, [7; 3; 123456789]%Z, demo_init. split; [vm_compute; reflexivity|].
  apply rtc_once. apply (step_key _ Left). reflexivity.
Qed.

Lemma reachable_loop_inv_witness : loop_inv demo_left.
Proof.
  apply (reachable_loop_inv demo_fuel 15 10); [lia|lia|exact demo_left_reachable].
Defined.


Lemma reachable_screen_ok_witness : screen_ok demo_left.
Proof. exact (reachable_screen_ok demo_fuel 15 10 demo_left demo_left_reachable). Defined.

(** The timer still pending when Down ended the game fires. *)
Definition demo_over_fired : game :=
  run_or (move demo_fuel true (set_pending [] (rng demo_over) demo_over)) demo_over.

Lemma game_over_final_witness :
  game_over demo_over_fired = true /\ snake_body demo_over_fired = snake_body demo_over /\
  food demo_over_fired = food demo_over.
Proof.
  apply (game_over_final demo_fuel demo_over demo_over_fired); [reflexivity|].
  apply (rtc_l _ _ demo_over); [apply (step_key _ Up); reflexivity|].
  apply rtc_once. apply (step_timer _ 0 (hd 0%Z (pending demo_over))); reflexivity.
Defined.

End Scheduler.
