(* ===== verification/Typing.v ===== *)
(** * Typing: the types and ranges of the attributes along every run

    Python checks none of the attributes of a [SnakeGame]; the code
    relies on the types and ranges [__init__] gives them: [width] and
    [height] the ints of [main]; [snake_body] a non-empty deque of
    [(x, y)] int pairs on the grid (line 74 reads [self.snake_body[-1]],
    line 106 compares its cells with the keys of [self.item_ids]);
    [previous_direction] and [next_direction] one of the four tuples of
    [binding2direction] (lines 65 and 75 unpack them); [food] a cell of
    the grid (line 104); and every delay handed to [canvas.after]
    (line 99) an int of milliseconds in [[0, 1000)].  [well_typed]
    states these facts, with the length of the body bounded by the
    number of cells plus the colliding head.  Every state reachable
    from [__init__] satisfies it, finished games included
    ([reachable_well_typed]), on a grid with fewer than [2^52] cells,
    the bound below which the length converts exactly to a double. *)

From S2P Require Import Prelude Grid Random Body Food Render Game Scheduler.
Import Grid Random Body Food Render Game Scheduler.

Module Typing.

Section Typing.
Context `{RandomLaws R}.
Variable food_fuel : nat.
Variables w h : Z.

(** A delay of [canvas.after]: an int of milliseconds below a second. *)
Definition delay_ok (ms : Z) : Prop := (0 <= ms < 1000)%Z.

Record well_typed (st : game (R:=R)) : Prop := {
  wt_width : width st = w;
  wt_height : height st = h;
  wt_body_nonempty : snake_body st <> [];
  wt_body_in_grid : Forall (in_grid w h) (snake_body st);
  wt_body_length : (Z.of_nat (length (snake_body st)) <= w * h + 1)%Z;
  wt_food : in_grid w h (food st);
  wt_previous : exists b, previous_direction st = binding2direction b;
  wt_next : exists b, next_direction st = binding2direction b;
  wt_pending : Forall delay_ok (pending st)
}.

(** ** Lemmas *)

(** A [move] of a running game keeps every delay in range and adds at
    most one more. *)
Lemma move_pending_delays s st st' :
  body_ok st -> game_over st = false ->
  (Z.of_nat (length (snake_body st)) < 2 ^ 52)%Z -> move food_fuel s st = Returns st' ->
  Forall delay_ok (pending st) -> Forall delay_ok (pending st').
Proof.
  intros Hok Hover Hlen Hrun Hp. destruct (exists_last (ok_nonempty _ Hok)) as (pre & hd & Hbody).
  destruct (move_running_cases _ s st pre hd st' Hok Hover Hbody Hrun)
    as [[_ ->]|[_ (a & Ha & Harm)]]; [exact Hp|].
  assert (Ha' : (0 < Z.of_nat (length (snake_body a)) < 2 ^ 53)%Z /\ pending a = pending st).
  { apply eat_or_pop_cases in Ha as [(_ & f & r & _ & ->)|(_ & _ & ->)]; simpl;
      (split; [|done]); rewrite ?tail_snoc, length_app by apply Hok; simpl; [lia|].
    rewrite Hbody in Hlen |- *. destruct pre; simpl in *; rewrite ?length_app in *; simpl in *; lia. }
  destruct Ha' as [Hla Hpa].
  destruct (arm_timer_bound s (refresh a) st' Hla Harm) as (ms & -> & Hms0 & Hms1).
  apply Forall_app. split; [simpl; by rewrite Hpa|]. destruct s; [|constructor].
  apply Forall_singleton. unfold delay_ok. simpl in Hms1. nia.
Qed.

Section Grid.
Hypothesis Hw : (0 < w)%Z.
Hypothesis Hh : (0 < h)%Z.
Hypothesis Hcells : (w * h < 2 ^ 52)%Z.

(** A [move] of a running game keeps the types of the attributes. *)
Lemma move_well_typed s st st' :
  body_ok st -> well_typed st -> game_over st = false ->
  move food_fuel s st = Returns st' -> well_typed st'.
Proof.
  intros Hok Hwt Hover Hrun. destruct Hwt as [Hw' Hh' _ _ _ _ _ [b Hb] Hp].
  destruct (exists_last (ok_nonempty _ Hok)) as (pre & hd & Hbody).
  assert (Hlen : (Z.of_nat (length (snake_body st)) <= w * h)%Z)
    by (rewrite <-Hw', <-Hh'; apply in_grid_length; [lia|lia|apply Hok|apply Hok]).
  pose proof (move_food_in_grid _ s st st' Hok Hover Hrun) as Hfood.
  destruct (move_spec_aux _ s st pre hd st' Hok Hover Hbody Hrun)
    as (Hprev & Hnext & Hw2 & Hh2 & Hcol & Hgo).
  assert (Hnh : in_grid w h (next_head st hd))
    by (rewrite <-Hw', <-Hh'; unfold next_head; apply step_in_grid; lia).
  assert (Hgrid : Forall (in_grid w h) (snake_body st)) by (rewrite <-Hw', <-Hh'; apply Hok).
  assert (Hbody' : snake_body st' = snake_body st ++ [next_head st hd] \/
                   snake_body st' = tail (snake_body st) ++ [next_head st hd]).
  { destruct (decide (next_head st hd ∈ snake_body st)) as [Hin|Hnin].
    - left. apply Hcol, Hin.
    - destruct (Hgo Hnin) as (_ & Heat & Hpop).
      destruct (decide (food st = next_head st hd)); [left; by apply Heat|right; by apply Hpop]. }
  constructor; [congruence|congruence| | | |rewrite Hw2, Hw', Hh2, Hh' in Hfood; exact Hfood
               |exists b; congruence|exists b; congruence|].
  - destruct Hbody' as [-> | ->]; intros Hn; apply app_eq_nil in Hn as [_ Hn]; discriminate.
  - destruct Hbody' as [-> | ->]; apply Forall_app; split; [done|by constructor| |by constructor].
    by apply Forall_tail.
  - destruct Hbody' as [-> | ->]; rewrite length_app; simpl; [lia|].
    destruct (snake_body st); simpl in *; lia.
  - apply (move_pending_delays s st st'); [done|done|lia|done|done].
Qed.

(** One step of the event loop keeps the types of the attributes. *)
Lemma step_well_typed st st' :
  loop_inv st -> well_typed st -> step food_fuel st st' -> well_typed st'.
Proof.
  unfold loop_inv. intros Hinv Hwt Hstep.
  destruct Hstep as [b x y Hkey|i ms x y Hi Hmove].
  - destruct (on_key_cases _ _ _ _ Hkey) as [->|(Hover & _ & Hmove)]; [done|].
    rewrite Hover in Hinv. destruct Hinv as (Hok & _ & _).
    apply (move_well_typed false (set_next_direction (binding2direction b) x));
      [by apply body_ok_set_next| |done|done].
    destruct Hwt. constructor; simpl; eauto.
  - assert (Hwt1 : well_typed (set_pending (delete i (pending x)) (rng x) x)).
    { destruct Hwt. constructor; simpl; try done. by apply Forall_delete. }
    destruct (game_over x) eqn:Hover.
    + apply move_game_over in Hmove; [by subst y|done].
    + destruct Hinv as (Hok & _ & _).
      apply (move_well_typed true (set_pending (delete i (pending x)) (rng x) x)); try done.
      by eapply body_ok_core; [|exact Hok].
Qed.

(** The game [__init__] returns is well typed. *)
Lemma init_well_typed sc r st :
  (5 <= w)%Z -> init food_fuel w h sc r = Returns st -> well_typed st.
Proof.
  intros Hw5 Hinit. unfold init in Hinit. inv_outcome. destruct a as [f r1]. simpl in *. subst st.
  destruct (make_food_safe_aux _ _ _ _ _ _ _ Hw Hh Ha) as [Hfree Hfg].
  pose proof (initial_state_ok w h sc f r1 (initial_screen w h sc) Hw5 Hh Hfree Hfg) as Hok.
  cbv zeta in Hok. simpl in Hok.
  assert (Hwt : well_typed (mkGame w h sc (initial_body h) (0, -1)%Z (0, -1)%Z false f r1
                  (initial_screen w h sc) [])).
  { pose proof (in_grid_length w h _ ltac:(lia) ltac:(lia) (ok_nodup _ Hok) (ok_in_grid _ Hok)).
    constructor; simpl in *; first [done|lia|exists Up; done|apply Hok]. }
  pose proof (move_well_typed true _ a0 Hok Hwt eq_refl Ha0) as [].
  by constructor.
Qed.

End Grid.
End Typing.

(** C26: every state of a game [__init__] built on a grid at least 5
    wide, with fewer than [2^52] cells, driven by any sequence of key
    presses and timer callbacks, is well typed: the grid sizes are
    those of [__init__], the body is a non-empty list of grid cells no
    longer than the grid plus one, the food is a grid cell, both
    directions are tuples of [binding2direction], and every pending
    delay is an int in [[0, 1000)]. *)
Theorem reachable_well_typed `{RandomLaws R} food_fuel w h st :
  (5 <= w)%Z -> (0 < h)%Z -> (w * h < 2 ^ 52)%Z -> reachable food_fuel w h st ->
  well_typed w h st.
Proof.
  intros Hw Hh Hcells (sc & r & st0 & Hinit & Hsteps).
  pose proof (init_inv _ w h sc r st0 Hw Hh Hinit) as Hinv.
  pose proof (init_well_typed food_fuel w h ltac:(lia) Hh Hcells sc r st0 Hw Hinit) as Hwt.
  clear Hinit. induction Hsteps as [|x y z Hxy _ IH]; [done|].
  apply IH; [by eapply step_inv|]. by apply (step_well_typed food_fuel w h ltac:(lia) Hh Hcells x y).
Qed.

(** ** Witness: the game of [main] after the Left key. *)

Import Random.Scripted.

Lemma reachable_well_typed_witness : well_typed 15 10 demo_left.
Proof. apply (reachable_well_typed demo_fuel 15 10); [lia|lia|lia|exact demo_left_reachable]. Defined.

End Typing.
