(* ===== verification/Abstract.v ===== *)
(** * Abstract: the engine the specification describes, and the refinement

    Section 4.4 of the specification describes the game engine as a
    state machine over a body, a food cell, a direction and a running /
    game-over flag, with two events: a tick ([advance]) and a key that
    is not the reverse of the last move (turn, then advance at once).
    The food drawn after eating is any grid cell outside the new body.
    [astep] is that machine; it knows nothing of the generator, the
    canvas or the timers.

    [abs] forgets everything of a [game] but the engine's part, with
    [previous_direction] as the direction.  [step_refines] shows that
    every step of the Tk event loop of [Scheduler] is a step of the
    abstract machine or leaves the abstract state unchanged, and
    [reachable_refines] lifts this to whole runs. *)

From S2P Require Import Prelude Grid Random Body Food Render Game Scheduler.
Import Grid Random Body Food Render Game Scheduler.

Module Abstract.

Record astate := mkAstate {
  a_body : list cell;
  a_food : cell;
  a_dir : direction;
  a_over : bool
}.

Section Machine.
Variables (width height : Z).

(** One advance in the current direction (specification, 4.4, steps
    1-4). *)
Inductive advance : astate -> astate -> Prop :=
  | adv_collide body food d pre hd :
      body = pre ++ [hd] ->
      next_cell width height hd d ∈ body ->
      advance (mkAstate body food d false)
              (mkAstate (body ++ [next_cell width height hd d]) food d true)
  | adv_eat body food d pre hd food' :
      body = pre ++ [hd] ->
      next_cell width height hd d ∉ body ->
      food = next_cell width height hd d ->
      food' ∉ body ++ [next_cell width height hd d] -> in_grid width height food' ->
      advance (mkAstate body food d false)
              (mkAstate (body ++ [next_cell width height hd d]) food' d false)
  | adv_move body food d pre hd :
      body = pre ++ [hd] ->
      next_cell width height hd d ∉ body ->
      food <> next_cell width height hd d ->
      advance (mkAstate body food d false)
              (mkAstate (tail body ++ [next_cell width height hd d]) food d false).

(** A tick, or a key that is not the reverse of the last move. *)
Inductive astep : astate -> astate -> Prop :=
  | a_tick s s' : advance s s' -> astep s s'
  | a_turn b s s' :
      binding2direction b <> opposite (a_dir s) ->
      advance (mkAstate (a_body s) (a_food s) (binding2direction b) (a_over s)) s' ->
      astep s s'.

End Machine.

Definition abs `{RandomSource R} (st : game (R:=R)) : astate :=
  mkAstate (snake_body st) (food st) (previous_direction st) (game_over st).

Section Refinement.
Context `{RandomLaws R}.
Variable food_fuel : nat.

(** A [move] that returns from a running game is one abstract advance
    in the direction [next_direction]. *)
Lemma move_advance s st st' :
  body_ok st -> game_over st = false -> move food_fuel s st = Returns st' ->
  advance (width st) (height st)
    (mkAstate (snake_body st) (food st) (next_direction st) false) (abs st').
Proof.
  intros Hok Hover Hrun.
  pose proof (move_food_in_grid _ _ _ _ Hok Hover Hrun) as Hfg.
  destruct (exists_last (ok_nonempty _ Hok)) as (pre & hd & Hbody).
  destruct (move_spec_aux _ _ _ _ _ _ Hok Hover Hbody Hrun)
    as (Hprev & _ & Hw & Hh & Hcol & Hgo).
  unfold abs. rewrite Hprev. rewrite Hw, Hh in Hfg. unfold next_head in *.
  destruct (decide (next_cell (width st) (height st) hd (next_direction st) ∈ snake_body st))
    as [Hin|Hnin].
  - destruct (Hcol Hin) as (-> & -> & ->). by eapply adv_collide.
  - destruct (Hgo Hnin) as (-> & Heat & Hpop).
    destruct (decide (food st = next_cell (width st) (height st) hd (next_direction st)))
      as [Hf|Hf].
    + destruct (Heat Hf) as [Hb' Hfree]. rewrite Hb'. rewrite Hb' in Hfree.
      by eapply adv_eat.
    + destruct (Hpop Hf) as [-> ->]. by eapply adv_move.
Qed.

(** One step of the event loop from the loop invariant, as a step or a
    stutter of the abstract machine. *)
Lemma step_simulates st st' :
  loop_inv st -> step food_fuel st st' ->
  abs st' = abs st \/ astep (width st) (height st) (abs st) (abs st').
Proof.
  unfold loop_inv. intros Hinv Hstep. destruct Hstep as [b x y Hkey|i ms x y Hi Hmove].
  - destruct (on_key_cases _ _ _ _ Hkey) as [->|(Hover & Hnotopp & Hmove)]; [by left|].
    rewrite Hover in Hinv. destruct Hinv as (Hok & _ & _). right.
    apply (a_turn _ _ b); [done|].
    pose proof (move_advance _ _ _ (body_ok_set_next _ _ Hok) Hover Hmove) as Hadv.
    simpl in Hadv. unfold abs; simpl. rewrite Hover. exact Hadv.
  - destruct (game_over x) eqn:Hover.
    + apply move_game_over in Hmove; [|done]. subst y. by left.
    + destruct Hinv as (Hok & [Hdir _] & _). right. apply a_tick.
      assert (Hok1 : body_ok (set_pending (delete i (pending x)) (rng x) x))
        by (eapply body_ok_core; [|exact Hok]; done).
      pose proof (move_advance _ _ _ Hok1 Hover Hmove) as Hadv. simpl in Hadv.
      unfold abs. rewrite Hover, Hdir. exact Hadv.
Qed.

(** C18: every step of the event loop from a state satisfying the loop
    invariant is a step of the abstract machine of the specification,
    or leaves the abstract state unchanged (a key ignored, a timer that
    fires after the game ended). *)
Theorem step_refines st st' :
  loop_inv st -> step food_fuel st st' ->
  abs st' = abs st \/ astep (width st) (height st) (abs st) (abs st').
Proof. apply step_simulates. Qed.

(** C19: a run of the event loop from the game [__init__] builds on a
    grid at least 5x1 is a run of the abstract machine: [__init__] is
    one advance from the five-cell start with some free grid cell as
    food, and every later step is an abstract step or a stutter. *)
Theorem reachable_refines w h sc r st0 st :
  (5 <= w)%Z -> (0 < h)%Z -> init food_fuel w h sc r = Returns st0 ->
  rtc (step food_fuel) st0 st ->
  (exists f, (f ∉ initial_body h) /\ in_grid w h f /\
     advance w h (mkAstate (initial_body h) f (binding2direction Up) false) (abs st0)) /\
  rtc (astep w h) (abs st0) (abs st).
Proof.
  intros Hw Hh Hinit Hsteps. split.
  - unfold init in Hinit. inv_outcome. destruct a as [f r1]. simpl in *. subst st0.
    assert (Hw0 : (0 < w)%Z) by lia.
    destruct (make_food_safe_aux _ _ _ _ _ _ _ Hw0 Hh Ha) as [Hfree Hfg].
    pose proof (initial_state_ok w h sc f r1 (initial_screen w h sc) Hw Hh Hfree Hfg) as Hok.
    exists f. split_and!; [done|done|]. exact (move_advance _ _ _ Hok eq_refl Ha0).
  - pose proof (init_inv _ _ _ _ _ _ Hw Hh Hinit) as Hinv.
    assert (Hd : reachable food_fuel w h st0) by (exists sc, r, st0; split; [done|apply rtc_refl]).
    apply reachable_dims in Hd as [Hw' Hh']. clear Hinit.
    induction Hsteps as [|x y z Hxy _ IH]; [apply rtc_refl|].
    destruct (step_dims _ _ _ Hxy) as [Hwy Hhy].
    destruct (step_simulates x y Hinv Hxy) as [Habs|Hastep].
    + rewrite <-Habs. apply IH; [by eapply step_inv|congruence|congruence].
    + rewrite Hw', Hh' in Hastep. eapply rtc_l; [exact Hastep|].
      apply IH; [by eapply step_inv|congruence|congruence].
Qed.

End Refinement.

(** ** Witnesses: the Left key from the game [main] builds. *)

Import Random.Scripted.

Lemma step_refines_witness :
  abs demo_left = abs demo_init \/ astep 15 10 (abs demo_init) (abs demo_left).
Proof.
  apply (step_refines demo_fuel demo_init demo_left demo_init_loop_inv).
  apply (step_key _ Left). reflexivity.
Defined.

Lemma reachable_refines_witness :
  (exists f, (f ∉ initial_body 10) /\ in_grid 15 10 f /\
     advance 15 10 (mkAstate (initial_body 10) f (binding2direction Up) false) (abs demo_init)) /\
  rtc (astep 15 10) (abs demo_init) (abs demo_left).
Proof.
  apply (reachable_refines demo_fuel 15 10 40 [7; 3; 123456789]%Z); [lia|lia|vm_compute; reflexivity|].
  apply rtc_once. apply (step_key _ Left). reflexivity.
Defined.

End Abstract.
