(* ===== verification/Score.v ===== *)
(** * Score: the length of the body along a run, and the finished game

    The score the status bar shows is [len(self.snake_body)] (line 102).
    Along any run of the event loop of [Scheduler] it changes in two
    places of [move] only: eating keeps the tail (lines 91-92), so the
    body grows by one and a new food is drawn; a collision appends the
    head that hit the body (line 80) and ends the game.  [run] is a run
    of the loop that counts the steps in which the food changed, which
    are the steps in which the snake ate.  The results: the score is
    the starting score plus the foods eaten, plus one for the colliding
    head once the game is over ([score_counts_food]); the body of a
    finished game is a duplicate-free body followed by a head that is
    one of its cells ([game_over_body_shape]). *)

From S2P Require Import Prelude Grid Random Body Food Render Game Scheduler.
Import Grid Random Body Food Render Game Scheduler.

Module Score.

Section Score.
Context `{RandomSource R}.
Variable food_fuel : nat.

(** [1] when the food cell changed between two states, [0] otherwise. *)
Definition eaten (st st' : game (R:=R)) : nat :=
  if decide (food st' = food st) then 0 else 1.

(** A run of the event loop, with the number of steps that changed the
    food. *)
Inductive run : game -> game -> nat -> Prop :=
  | run_nil st : run st st 0
  | run_cons st st' st'' n :
      step food_fuel st st' -> run st' st'' n -> run st st'' (eaten st st' + n).

(** The body of a finished game: the duplicate-free body the head ran
    into, then the head. *)
Definition over_shape (st : game (R:=R)) : Prop :=
  game_over st = true ->
  exists pre hd, snake_body st = pre ++ [hd] /\ NoDup pre /\ hd ∈ pre.

(** ** Lemmas *)

Lemma run_rtc st st' n : run st st' n -> rtc (step food_fuel) st st'.
Proof. induction 1; [apply rtc_refl|by eapply rtc_l]. Qed.

Lemma rtc_run st st' : rtc (step food_fuel) st st' -> exists n, run st st' n.
Proof.
  induction 1 as [|x y z Hxy _ [n IH]]; [exists 0; constructor|].
  eexists. by eapply run_cons.
Qed.

(** What one [move] of a running game does to the score. *)
Lemma move_score s st st' :
  body_ok st -> game_over st = false -> move food_fuel s st = Returns st' ->
  length (snake_body st') = length (snake_body st) + eaten st st' +
    (if game_over st' then 1 else 0) /\
  (game_over st' = true ->
   snake_body st' = snake_body st ++ [default (0, 0)%Z (last (snake_body st'))] /\
   default (0, 0)%Z (last (snake_body st')) ∈ snake_body st).
Proof.
  intros Hok Hover Hrun. destruct (exists_last (ok_nonempty _ Hok)) as (pre & hd & Hbody).
  destruct (move_spec_aux food_fuel s st pre hd st' Hok Hover Hbody Hrun)
    as (_ & _ & _ & _ & Hcol & Hgo).
  unfold eaten. set (nh := next_head st hd) in *.
  destruct (decide (nh ∈ snake_body st)) as [Hin|Hnin].
  - destruct (Hcol Hin) as (-> & Hb & ->). rewrite Hb, last_snoc, length_app, decide_True by done.
    simpl. split; [lia|done].
  - destruct (Hgo Hnin) as (-> & Heat & Hpop). split; [|done].
    destruct (decide (food st = nh)) as [Hf|Hf].
    + destruct (Heat Hf) as [-> Hfree]. rewrite decide_False; [rewrite length_app; simpl; lia|].
      intros Heq. apply Hfree. rewrite Heq, Hf, elem_of_app, list_elem_of_singleton. by right.
    + destruct (Hpop Hf) as [-> ->]. rewrite decide_True by done.
      rewrite length_app, Hbody. destruct pre; simpl; rewrite ?length_app; simpl; lia.
Qed.

(** One step of the loop from a state of the loop invariant. *)
Lemma step_score `{!RandomLaws R} st st' :
  loop_inv st -> step food_fuel st st' ->
  length (snake_body st') + (if game_over st then 1 else 0) =
  length (snake_body st) + eaten st st' + (if game_over st' then 1 else 0) /\
  (over_shape st -> over_shape st').
Proof.
  unfold loop_inv. intros Hinv Hstep.
  assert (Hsame : forall st1, snake_body st1 = snake_body st -> food st1 = food st ->
            game_over st1 = game_over st ->
            length (snake_body st1) + (if game_over st then 1 else 0) =
            length (snake_body st) + eaten st st1 + (if game_over st1 then 1 else 0) /\
            (over_shape st -> over_shape st1)).
  { intros st1 Hb Hf Ho. unfold eaten, over_shape. rewrite Hb, Hf, Ho, decide_True by done.
    split; [lia|done]. }
  assert (Hmove : forall s x, game_over st = false -> body_ok x ->
            snake_body x = snake_body st -> food x = food st -> game_over x = false ->
            move food_fuel s x = Returns st' ->
            length (snake_body st') + (if game_over st then 1 else 0) =
            length (snake_body st) + eaten st st' + (if game_over st' then 1 else 0) /\
            (over_shape st -> over_shape st')).
  { intros s x Hover Hok Hb Hf Ho Hrun.
    destruct (move_score s x st' Hok Ho Hrun) as [Hlen Hshape].
    unfold eaten in *. rewrite Hb, Hf in *. rewrite Hover. split; [lia|].
    intros _ Hover'. destruct (Hshape Hover') as [Hb' Hin].
    eexists _, _. split_and!; [exact Hb'|rewrite <-Hb; exact (ok_nodup _ Hok)|exact Hin]. }
  destruct Hstep as [b x y Hkey|i ms x y Hi Hrun].
  - destruct (on_key_cases _ _ _ _ Hkey) as [->|(Hover & _ & Hrun)]; [by apply Hsame|].
    rewrite Hover in Hinv. destruct Hinv as (Hok & _ & _).
    apply (Hmove false (set_next_direction (binding2direction b) x));
      [done|by apply body_ok_set_next|done|done|done|exact Hrun].
  - destruct (game_over x) eqn:Hover.
    + apply move_game_over in Hrun; [subst y|done]. by apply Hsame.
    + destruct Hinv as (Hok & _ & _).
      apply (Hmove true (set_pending (delete i (pending x)) (rng x) x));
        [done| |done|done|done|exact Hrun].
      by eapply body_ok_core; [|exact Hok].
Qed.

(** C24: along any run of the event loop from a state of the loop
    invariant, the score grows by exactly the number of foods eaten,
    plus one for the head that hits the body when the game ends. *)
Theorem score_counts_food `{!RandomLaws R} st st' n :
  loop_inv st -> run st st' n ->
  length (snake_body st') + (if game_over st then 1 else 0) =
  length (snake_body st) + n + (if game_over st' then 1 else 0).
Proof.
  intros Hinv Hrun. induction Hrun as [st|x y z n Hxy Hyz IH]; [lia|].
  destruct (step_score x y Hinv Hxy) as [Hxy' _].
  specialize (IH (step_inv food_fuel x y Hinv Hxy)). lia.
Qed.

(** C25: in every reachable state of a game [__init__] built on a grid
    at least 5x1, a finished game's body is a duplicate-free body
    followed by the head that ran into it, one of its cells. *)
Theorem game_over_body_shape `{!RandomLaws R} w h st :
  (5 <= w)%Z -> (0 < h)%Z -> reachable food_fuel w h st -> over_shape st.
Proof.
  intros Hw Hh (sc & r & st0 & Hinit & Hsteps).
  pose proof (init_inv food_fuel w h sc r st0 Hw Hh Hinit) as Hinv.
  assert (Hsh : over_shape st0).
  { unfold init in Hinit. inv_outcome. destruct a as [f r1]. simpl in *. subst st0.
    assert (Hw0 : (0 < w)%Z) by lia.
    destruct (make_food_safe_aux _ _ _ _ _ _ _ Hw0 Hh Ha) as [Hfree Hfg].
    pose proof (initial_state_ok w h sc f r1 (initial_screen w h sc) Hw Hh Hfree Hfg) as Hok.
    intros Hover. simpl in Hover.
    destruct (move_score _ _ _ Hok eq_refl Ha0) as [_ Hshape].
    destruct (Hshape Hover) as [Hb Hin]. simpl. rewrite Hb.
    eexists _, _. split_and!; [done|apply NoDup_initial_body|exact Hin]. }
  clear Hinit. revert Hinv Hsh.
  induction Hsteps as [|x y z Hxy _ IH]; intros Hinv Hsh; [done|].
  apply IH; [by eapply step_inv|]. by apply (step_score x y Hinv Hxy).
Qed.

End Score.

(** ** Witnesses: from the start of [main], Right three times then Up
    runs the head into the food at (7, 3); Left then Down ends the
    game. *)

Import Random.Scripted.

Definition demo_r1 : game := Eval vm_compute in run_or (on_key demo_fuel Right demo_init) demo_init.
Definition demo_r2 : game := Eval vm_compute in run_or (on_key demo_fuel Right demo_r1) demo_r1.
Definition demo_r3 : game := Eval vm_compute in run_or (on_key demo_fuel Right demo_r2) demo_r2.
Definition demo_eat : game := Eval vm_compute in run_or (on_key demo_fuel Up demo_r3) demo_r3.

Lemma score_counts_food_witness :
  length (snake_body demo_eat) + (if game_over demo_init then 1 else 0) =
  length (snake_body demo_init) +
    (eaten demo_init demo_r1 + (eaten demo_r1 demo_r2 + (eaten demo_r2 demo_r3 +
      (eaten demo_r3 demo_eat + 0)))) +
  (if game_over demo_eat then 1 else 0).
Proof.
  apply (score_counts_food demo_fuel demo_init demo_eat); [exact demo_init_loop_inv|].
  eapply run_cons; [apply (step_key _ Right); vm_compute; reflexivity|].
  eapply run_cons; [apply (step_key _ Right); vm_compute; reflexivity|].
  eapply run_cons; [apply (step_key _ Right); vm_compute; reflexivity|].
  eapply run_cons; [apply (step_key _ Up); vm_compute; reflexivity|].
  apply run_nil.
Defined.

Lemma demo_over_reachable : reachable demo_fuel 15 10 demo_over.
Proof.
  exists 40%Z, [7; 3; 123456789]%Z, demo_init. split; [vm_compute; reflexivity|].
  apply (rtc_l _ _ demo_left); [apply (step_key _ Left); vm_compute; reflexivity|].
  apply rtc_once. apply (step_key _ Down). vm_compute; reflexivity.
Qed.

Lemma game_over_body_shape_witness : over_shape demo_over.
Proof. apply (game_over_body_shape demo_fuel 15 10); [lia|lia|exact demo_over_reachable]. Defined.

End Score.
